(** * Array data processor: the classifier of [server.js] and [app.js]

    A shallow embedding of [processArrayData] (src/backend/server.js) and of
    its client-side copy [processArrayClientSide] (src/frontend/app.js),
    followed by the properties the specification states about them.

    Conventions of the embedding.
    - A JavaScript string is a [string]; a character stands for the code
      unit with the same number (code units 0..255).
    - A JavaScript number is a [number]: an integer-valued double, an
      infinity or NaN; these are the numbers the function computes with
      (results of [parseInt] on digit strings, and their sums).  An input
      number with a fractional part is a [VFrac], carrying the string it
      prints as: the function only ever converts it to a string.
    - A call either returns or throws: [completion].
    - What the language leaves to the engine the program runs on is a
      parameter, [Engine]: the room on the call stack for the recursions
      of [String] and [JSON.stringify], the wording of the engine's own
      errors, and the order [localeCompare] gives in the default locale of
      the process.  The definitions of the program and the statements
      about it are made on an arbitrary engine; [reference_engine] is one
      like Node.js in an English locale, [estonian_engine] the same in an
      Estonian one, and the statements are instantiated on them at the
      end. *)

From Stdlib Require Import ZArith List String Ascii Bool Lia.
From Stdlib Require Import Permutation Sorted DecimalString DecimalN.
Import ListNotations.

Local Open Scope string_scope.
Local Open Scope Z_scope.
Local Set Warnings "-register-all".

(** ** Completions: a call returns a value or throws *)

Inductive exn : Type :=
| Error (message : string)
| TypeError (message : string)
| RangeError (message : string).

Definition message (e : exn) : string :=
  match e with
  | Error m => m
  | TypeError m => m
  | RangeError m => m
  end.

Inductive completion (A : Type) : Type :=
| Returns (a : A)
| Throws (e : exn).

Arguments Returns {A} a.
Arguments Throws {A} e.

Definition bind {A B : Type} (c : completion A) (k : A -> completion B)
  : completion B :=
  match c with
  | Returns a => k a
  | Throws e => Throws e
  end.

Notation "'let*' x ':=' c 'in' k" := (bind c (fun x => k))
  (at level 10, x name, c at level 100, k at level 200).

(** [try { body } catch (error) { handler }] *)
Definition try_catch {A : Type} (body : completion A) (handler : exn -> completion A)
  : completion A :=
  match body with
  | Returns a => Returns a
  | Throws e => handler e
  end.

(** ** Numbers *)

Inductive number : Type :=
| Fin (z : Z)          (* the double whose value is the integer z; -0 is Fin 0 *)
| PosInfinity
| NegInfinity
| NaN.

(** Round a non-negative integer to the nearest integer with a 53-bit
    significand, ties to the even significand. *)
Definition round_significand (z : Z) : Z :=
  let b := Z.log2 z in
  if b <? 53 then z
  else
    let sh := b - 52 in
    let q := Z.shiftr z sh in
    let r := Z.land z (Z.ones sh) in
    let half := Z.shiftl 1 (sh - 1) in
    let q' := if (half <? r) || ((r =? half) && Z.odd q) then q + 1 else q in
    Z.shiftl q' sh.

(** The double nearest to the integer [z]; magnitudes that round to
    [2^1024] or more overflow. *)
Definition to_double (z : Z) : number :=
  let m := round_significand (Z.abs z) in
  if 2 ^ 1024 <=? m then (if z <? 0 then NegInfinity else PosInfinity)
  else Fin (Z.sgn z * m).

(** [a + b] *)
Definition js_add (a b : number) : number :=
  match a, b with
  | NaN, _ | _, NaN => NaN
  | PosInfinity, NegInfinity | NegInfinity, PosInfinity => NaN
  | PosInfinity, _ | _, PosInfinity => PosInfinity
  | NegInfinity, _ | _, NegInfinity => NegInfinity
  | Fin x, Fin y => to_double (x + y)
  end.

(** [n % 2]: the remainder has the sign of the dividend; an infinite
    dividend gives NaN. *)
Definition js_rem2 (n : number) : number :=
  match n with
  | Fin z => Fin (Z.rem z 2)
  | _ => NaN
  end.

(** [n === 0] and [n !== 0]; NaN is different from everything. *)
Definition strict_eq_zero (n : number) : bool :=
  match n with
  | Fin z => z =? 0
  | _ => false
  end.

Definition strict_ne_zero (n : number) : bool := negb (strict_eq_zero n).

(** Decimal digits of a non-negative integer, no leading zero. *)
Definition decimal (z : Z) : string :=
  NilZero.string_of_uint (N.to_uint (Z.to_N z)).

(** The integer a string of decimal digits denotes ([None] when some
    character is not a digit, or the string is empty). *)
Definition decimal_value (s : string) : option Z :=
  match NilZero.uint_of_string s with
  | Some d => Some (Z.of_N (N.of_uint d))
  | None => None
  end.

Definition digit_count (z : Z) : Z := Z.of_nat (String.length (decimal z)).

(** Whether the integer [c] rounds to the double [z]. *)
Definition rounds_to (z c : Z) : bool :=
  match to_double c with
  | Fin m => m =? z
  | _ => false
  end.

(** Number::toString looks for the decimal [s * 10^e] with the fewest
    digits [s] that rounds to the double.  With [k] digits the candidates
    are the two multiples of [10^e] around [z], [e] being the number of
    digits of [z] less [k]; of two that round to [z] the closer one is
    taken, on a tie the even one. *)
Definition digits_at (z : Z) (k : nat) : option (Z * Z) :=
  let e := Z.max 0 (digit_count z - Z.of_nat k) in
  let p := 10 ^ e in
  let lo := z / p in
  let hi := lo + 1 in
  let oklo := rounds_to z (lo * p) in
  let okhi := rounds_to z (hi * p) in
  let pick_lo :=
    (z - lo * p <? hi * p - z) || ((z - lo * p =? hi * p - z) && Z.even lo) in
  if oklo && okhi then Some (if pick_lo then lo else hi, e)
  else if oklo then Some (lo, e)
  else if okhi then Some (hi, e)
  else None.

(** Try [k], [k+1], ... digits; 17 digits always identify a double. *)
Fixpoint shortest_digits (z : Z) (k : nat) (fuel : nat) : Z * Z :=
  match fuel with
  | O => (z, 0)
  | S fuel' =>
      match digits_at z k with
      | Some se => se
      | None => shortest_digits z (S k) fuel'
      end
  end.

(** The digits without their final zeros, which go to the exponent. *)
Fixpoint strip_zeros (fuel : nat) (s e : Z) : Z * Z :=
  match fuel with
  | O => (s, e)
  | S fuel' =>
      if (0 <? s) && (s mod 10 =? 0) then strip_zeros fuel' (s / 10) (e + 1)
      else (s, e)
  end.

(** Exponent notation: the first digit, the others after a point if there
    are any, and the exponent, one less than the number of digits of
    [s * 10^e]. *)
Definition exponent_notation (s e : Z) : string :=
  let '(s', e') := strip_zeros (S (Z.to_nat (Z.log2 s))) s e in
  let n := digit_count s' + e' in
  match decimal s' with
  | String c EmptyString => String c EmptyString ++ "e+" ++ decimal (n - 1)
  | String c rest => String c EmptyString ++ "." ++ rest ++ "e+" ++ decimal (n - 1)
  | EmptyString => EmptyString
  end.

(** Number::toString for a magnitude: the digits of [s] followed by [e]
    zeros when that makes at most 21 digits, exponent notation otherwise. *)
Definition magnitude_toString (z : Z) : string :=
  let '(s, e) := shortest_digits z 1 17 in
  if s * 10 ^ e <? 10 ^ 21 then decimal (s * 10 ^ e) else exponent_notation s e.

(** [String(n)] for a number *)
Definition Number_toString (n : number) : string :=
  match n with
  | NaN => "NaN"
  | PosInfinity => "Infinity"
  | NegInfinity => "-Infinity"
  | Fin z => if z <? 0 then "-" ++ magnitude_toString (- z) else magnitude_toString z
  end.

(** ** Values handed to the function: what [JSON.parse] builds, and [undefined] *)

Inductive value : Type :=
| VUndefined
| VNull
| VBool (b : bool)
| VNum (n : number)
| VFrac (repr : string)                   (* a number with a fractional part,
                                             given by what String prints for it *)
| VStr (s : string)
| VArr (items : list value)
| VObj (props : list (string * value)).   (* own properties, keys distinct *)

(** Own property lookup in a parsed object. *)
Fixpoint own_property (key : string) (props : list (string * value)) : option value :=
  match props with
  | [] => None
  | (k, v) :: rest => if String.eqb k key then Some v else own_property key rest
  end.

(** Truthiness, as [||] tests it. *)
Definition truthy (v : value) : bool :=
  match v with
  | VUndefined | VNull => false
  | VBool b => b
  | VNum (Fin z) => negb (z =? 0)
  | VNum NaN => false
  | VNum _ => true
  | VFrac _ => true
  | VStr s => negb (String.eqb s "")
  | VArr _ | VObj _ => true
  end.

(** [a || b] *)
Definition js_or (a b : value) : value := if truthy a then a else b.

(** [Array.isArray(v)] *)
Definition isArray (v : value) : bool :=
  match v with
  | VArr _ => true
  | _ => false
  end.

(** ** String helpers *)

(** White space and line terminators among the code units 0..255. *)
Definition is_space (c : ascii) : bool :=
  let n := nat_of_ascii c in
  ((9 <=? n) && (n <=? 13) || (n =? 32) || (n =? 160))%nat.

Fixpoint trim_start (l : list ascii) : list ascii :=
  match l with
  | c :: rest => if is_space c then trim_start rest else l
  | [] => []
  end.

(** [s.trim()] *)
Definition trim (s : string) : string :=
  string_of_list_ascii
    (rev (trim_start (rev (trim_start (list_ascii_of_string s))))).

Definition is_digit (c : ascii) : bool :=
  let n := nat_of_ascii c in ((48 <=? n) && (n <=? 57))%nat.

Definition is_upper (c : ascii) : bool :=
  let n := nat_of_ascii c in ((65 <=? n) && (n <=? 90))%nat.

Definition is_lower (c : ascii) : bool :=
  let n := nat_of_ascii c in ((97 <=? n) && (n <=? 122))%nat.

(** [/^\d+$/.test(s)] *)
Definition test_digits (s : string) : bool :=
  match list_ascii_of_string s with
  | [] => false
  | l => forallb is_digit l
  end.

(** [/^[a-zA-Z]$/.test(s)] *)
Definition test_letter (s : string) : bool :=
  match s with
  | String c EmptyString => is_lower c || is_upper c
  | _ => false
  end.

(** [parseInt(s)] on the strings the call site passes, those matching
    [/^\d+$/]: the decimal value, rounded to a double. *)
Definition parseInt (s : string) : number :=
  match decimal_value s with
  | Some z => to_double z
  | None => NaN
  end.

(** [a.toUpperCase()] and [a.toLowerCase()]; the function applies them to
    single ASCII letters only, and ASCII is what the embedding maps. *)
Definition upper_char (c : ascii) : ascii :=
  if is_lower c then ascii_of_nat (nat_of_ascii c - 32) else c.

Definition lower_char (c : ascii) : ascii :=
  if is_upper c then ascii_of_nat (nat_of_ascii c + 32) else c.

Fixpoint toUpperCase (s : string) : string :=
  match s with
  | EmptyString => EmptyString
  | String c rest => String (upper_char c) (toUpperCase rest)
  end.

Fixpoint toLowerCase (s : string) : string :=
  match s with
  | EmptyString => EmptyString
  | String c rest => String (lower_char c) (toLowerCase rest)
  end.

Definition letter_char (c : ascii) : bool := is_lower c || is_upper c.

(** Two letters of one case. *)
Definition same_case (x y : ascii) : bool :=
  letter_char x && letter_char y && Bool.eqb (is_upper x) (is_upper y).

(** ** Arrays *)

Section ArrayMethods.
Context {A : Type}.

(** [Array.prototype.sort(compareFn)]: a stable sort; an element goes
    before the first element it does not compare greater than. *)
Fixpoint sort_insert (compareFn : A -> A -> Z) (x : A) (l : list A) : list A :=
  match l with
  | [] => [x]
  | y :: rest =>
      if compareFn x y <=? 0 then x :: y :: rest
      else y :: sort_insert compareFn x rest
  end.

Definition sort (compareFn : A -> A -> Z) (l : list A) : list A :=
  fold_right (sort_insert compareFn) [] l.

(** [arr.forEach(callback)], the callback threading the arrays it pushes
    to; an exception in the callback ends the loop. *)
Fixpoint forEach {S : Type} (callback : S -> A -> completion S)
    (arr : list A) (st : S) : completion S :=
  match arr with
  | [] => Returns st
  | item :: rest => let* st' := callback st item in forEach callback rest st'
  end.
End ArrayMethods.

(** [arr.join('')] *)
Definition join_empty (l : list string) : string := String.concat "" l.

(** The three arrays the loop pushes to. *)
Record buckets : Type := mkBuckets {
  numbers : list number;
  alphabets : list string;
  specialChars : list string
}.

Definition no_buckets : buckets := mkBuckets [] [] [].

(** The response object, fields named as in the source. *)
Module Result.
Record t : Type := make {
  is_success : bool;
  error : option string;
  user_id : string;
  email : string;
  roll_number : string;
  odd_numbers : list string;
  even_numbers : list string;
  alphabets : list string;
  special_characters : list string;
  sum : string;
  concat_string : string;
  processed_with : option string     (* set by the client-side copy only *)
}.
End Result.

Abbreviation Result := Result.t.

(** The record of the [catch] branch. *)
Definition failure (e : exn) : Result :=
  Result.make false (Some (message e)) "demo_user_29082025" "demo@example.com" "12345"
    [] [] [] [] "0" "" None.

(** ** The engine *)

(** The errors the engine itself raises in this program.  The standard
    fixes when they are raised, not what their message says. *)
Inductive fault : Type :=
| ReadOfUndefined (property : string)  (* a property read on [undefined] *)
| ReadOfNull (property : string)       (* a property read on [null] *)
| NotCallable (callee : string)        (* a call of what is not a function *)
| NotPrimitive                         (* [String] of an object that has no
                                          usable [toString] or [valueOf] *)
| StackExhausted.                      (* the call stack is used up *)

(** What the program leaves to the engine it runs on.
    - [stack_depth]: how many arrays nested in one another [String]
      converts before the call stack is used up; [stringify_depth]: how
      many arrays and objects nested in one another [JSON.stringify]
      serialises.  The room is taken to be the same wherever the program
      makes the call.
    - [wording]: the message of each error of the engine; it is taken to
      depend on the kind of the error and on the property or the callee it
      names.
    - [localeCompare], which compares in the default locale of the
      process.  The standard requires it to be a consistent comparator;
      the laws say so for the strings the program compares with it, single
      letters of one case: the result is -1, 0 or 1 (as the ICU collator
      of V8, SpiderMonkey and JavaScriptCore returns), swapping the
      arguments negates it, only equal letters compare equal, and it is
      transitive. *)
Class Engine : Type := {
  stack_depth : nat;
  stringify_depth : nat;
  wording : fault -> string;
  localeCompare : string -> string -> Z;
  localeCompare_values : forall x y, same_case x y = true ->
    In (localeCompare (String x "") (String y "")) [-1; 0; 1];
  localeCompare_swap : forall x y, same_case x y = true ->
    localeCompare (String y "") (String x "") = - localeCompare (String x "") (String y "");
  localeCompare_zero : forall x y, same_case x y = true ->
    localeCompare (String x "") (String y "") = 0 -> x = y;
  localeCompare_trans : forall x y z, same_case x y = true -> same_case y z = true ->
    localeCompare (String x "") (String y "") <= 0 ->
    localeCompare (String y "") (String z "") <= 0 ->
    localeCompare (String x "") (String z "") <= 0
}.

(** ** Two engines *)

(** Two strings compared by the weights of their characters, the first
    difference deciding, a prefix before its extensions. *)
Fixpoint compare_weights (weight : ascii -> Z) (a b : string) : Z :=
  match a, b with
  | EmptyString, EmptyString => 0
  | EmptyString, String _ _ => -1
  | String _ _, EmptyString => 1
  | String x a', String y b' =>
      if weight x <? weight y then -1
      else if weight y <? weight x then 1
      else compare_weights weight a' b'
  end.

Definition case_weight (c : ascii) : Z := if is_upper c then 1 else 0.

(** A collation in the manner of the Unicode collation algorithm, on the
    letters the program compares: strings are compared without regard to
    case first, by the [rank] of each letter in the alphabet of the locale;
    strings with the same letters are told apart by case, lower case
    first.  Characters that are not letters get a rank as well, which the
    program never asks for. *)
Definition collate (rank : ascii -> Z) (a b : string) : Z :=
  match compare_weights rank a b with
  | 0 => compare_weights case_weight a b
  | r => r
  end.

(** The root collation, which English and most locales of the Latin script
    keep for the letters a to z: the order of the code points. *)
Definition root_rank (c : ascii) : Z := 2 * Z.of_nat (nat_of_ascii (lower_char c)).

(** The Estonian collation (locale et-EE): z goes between s and t. *)
Definition estonian_rank (c : ascii) : Z :=
  let n := Z.of_nat (nat_of_ascii (lower_char c)) in
  if n =? 122 then 2 * 115 + 1 else 2 * n.

(** The messages of V8 (Node.js 16 and later, Chrome). *)
Definition v8_wording (f : fault) : string :=
  match f with
  | ReadOfUndefined property =>
      "Cannot read properties of undefined (reading '" ++ property ++ "')"
  | ReadOfNull property =>
      "Cannot read properties of null (reading '" ++ property ++ "')"
  | NotCallable callee => callee ++ " is not a function"
  | NotPrimitive => "Cannot convert object to primitive value"
  | StackExhausted => "Maximum call stack size exceeded"
  end.

Lemma lower_char_code (c : ascii) :
  nat_of_ascii (lower_char c) =
  if is_upper c then (nat_of_ascii c + 32)%nat else nat_of_ascii c.
Proof.
  destruct c as [[|] [|] [|] [|] [|] [|] [|] [|]]; reflexivity.
Qed.

Lemma same_case_inv (x y : ascii) :
  same_case x y = true ->
  letter_char x = true /\ letter_char y = true /\ is_upper x = is_upper y.
Proof.
  unfold same_case. intros H.
  apply andb_true_iff in H as [H Hc]. apply andb_true_iff in H as [Hx Hy].
  repeat split; try assumption. apply eqb_prop. exact Hc.
Qed.

Lemma same_case_sym (x y : ascii) : same_case x y = true -> same_case y x = true.
Proof.
  intros H. apply same_case_inv in H as [Hx [Hy Hc]].
  unfold same_case. rewrite Hx, Hy, Hc, eqb_reflx. reflexivity.
Qed.

Lemma same_case_trans (x y z : ascii) :
  same_case x y = true -> same_case y z = true -> same_case x z = true.
Proof.
  intros H1 H2. apply same_case_inv in H1 as [Hx [_ Hc1]].
  apply same_case_inv in H2 as [_ [Hz Hc2]].
  unfold same_case. rewrite Hx, Hz, Hc1, Hc2, eqb_reflx. reflexivity.
Qed.

Lemma code_injective (x y : ascii) : nat_of_ascii x = nat_of_ascii y -> x = y.
Proof.
  intros H. rewrite <- (ascii_nat_embedding x), <- (ascii_nat_embedding y), H.
  reflexivity.
Qed.

(** On two letters of one case a collation compares the ranks. *)
Lemma collate_letters (rank : ascii -> Z) (x y : ascii) :
  is_upper x = is_upper y ->
  collate rank (String x "") (String y "") =
  if rank x <? rank y then -1 else if rank y <? rank x then 1 else 0.
Proof.
  intros H. unfold collate. cbn [compare_weights]. unfold case_weight.
  rewrite H, Z.ltb_irrefl.
  destruct (rank x <? rank y); [ reflexivity | ].
  destruct (rank y <? rank x); reflexivity.
Qed.

Section CollationLaws.
Variable rank : ascii -> Z.
Hypothesis rank_injective :
  forall x y, same_case x y = true -> rank x = rank y -> x = y.

Lemma collate_values (x y : ascii) :
  same_case x y = true -> In (collate rank (String x "") (String y "")) [-1; 0; 1].
Proof.
  intros H. apply same_case_inv in H as [_ [_ H]]. rewrite (collate_letters _ _ _ H).
  simpl. destruct (rank x <? rank y); [ left; reflexivity | ].
  destruct (rank y <? rank x); [ right; right; left | right; left ]; reflexivity.
Qed.

Lemma collate_swap (x y : ascii) :
  same_case x y = true ->
  collate rank (String y "") (String x "") = - collate rank (String x "") (String y "").
Proof.
  intros H. apply same_case_inv in H as [_ [_ H]].
  rewrite (collate_letters _ _ _ H), (collate_letters _ _ _ (eq_sym H)).
  destruct (rank x <? rank y) eqn:E1, (rank y <? rank x) eqn:E2; try reflexivity.
  apply Z.ltb_lt in E1, E2. lia.
Qed.

Lemma collate_zero (x y : ascii) :
  same_case x y = true -> collate rank (String x "") (String y "") = 0 -> x = y.
Proof.
  intros H. pose proof (same_case_inv _ _ H) as [_ [_ Hc]].
  rewrite (collate_letters _ _ _ Hc).
  destruct (rank x <? rank y) eqn:E1; [ discriminate | ].
  destruct (rank y <? rank x) eqn:E2; [ discriminate | ].
  intros _. apply rank_injective; [ exact H | ].
  apply Z.ltb_ge in E1, E2. lia.
Qed.

Lemma collate_trans (x y z : ascii) :
  same_case x y = true -> same_case y z = true ->
  collate rank (String x "") (String y "") <= 0 ->
  collate rank (String y "") (String z "") <= 0 ->
  collate rank (String x "") (String z "") <= 0.
Proof.
  intros H1 H2. apply same_case_inv in H1 as [_ [_ H1]].
  apply same_case_inv in H2 as [_ [_ H2]].
  rewrite (collate_letters _ _ _ H1), (collate_letters _ _ _ H2),
    (collate_letters _ _ _ (eq_trans H1 H2)).
  destruct (rank x <? rank y) eqn:E1, (rank y <? rank x) eqn:E2,
           (rank y <? rank z) eqn:E3, (rank z <? rank y) eqn:E4,
           (rank x <? rank z) eqn:E5, (rank z <? rank x) eqn:E6;
    try lia;
    rewrite ?Z.ltb_lt, ?Z.ltb_ge in *; lia.
Qed.
End CollationLaws.

Lemma root_rank_injective (x y : ascii) :
  same_case x y = true -> root_rank x = root_rank y -> x = y.
Proof.
  intros H. apply same_case_inv in H as [_ [_ H]]. unfold root_rank.
  rewrite !lower_char_code, H. intros E. apply code_injective.
  destruct (is_upper y); lia.
Qed.

Lemma estonian_rank_injective (x y : ascii) :
  same_case x y = true -> estonian_rank x = estonian_rank y -> x = y.
Proof.
  intros H. apply same_case_inv in H as [_ [_ H]]. unfold estonian_rank.
  rewrite !lower_char_code, H. intros E. apply code_injective.
  destruct (is_upper y);
    destruct (Z.eqb_spec (Z.of_nat (nat_of_ascii x + 32)) 122);
    destruct (Z.eqb_spec (Z.of_nat (nat_of_ascii y + 32)) 122);
    destruct (Z.eqb_spec (Z.of_nat (nat_of_ascii x)) 122);
    destruct (Z.eqb_spec (Z.of_nat (nat_of_ascii y)) 122); lia.
Qed.

(** An engine like Node.js in an English locale: the messages of V8 and
    the root collation.  The two depths stand for limits that depend on the
    size of the stack the process is given; they are of the order of the
    thousands. *)
Definition reference_engine : Engine := {|
  stack_depth := 2000;
  stringify_depth := 2000;
  wording := v8_wording;
  localeCompare := collate root_rank;
  localeCompare_values := collate_values root_rank;
  localeCompare_swap := collate_swap root_rank;
  localeCompare_zero := collate_zero root_rank root_rank_injective;
  localeCompare_trans := collate_trans root_rank
|}.

(** The same engine in a process whose default locale is Estonian. *)
Definition estonian_engine : Engine := {|
  stack_depth := 2000;
  stringify_depth := 2000;
  wording := v8_wording;
  localeCompare := collate estonian_rank;
  localeCompare_values := collate_values estonian_rank;
  localeCompare_swap := collate_swap estonian_rank;
  localeCompare_zero := collate_zero estonian_rank estonian_rank_injective;
  localeCompare_trans := collate_trans estonian_rank
|}.

(** ** The program, on an engine *)

Section Program.
Context {JS : Engine}.

(** The exception the engine throws: a [TypeError], but for the exhausted
    stack, which V8 and JavaScriptCore report as a [RangeError]. *)
Definition fault_exn (f : fault) : exn :=
  match f with
  | StackExhausted => RangeError (wording f)
  | _ => TypeError (wording f)
  end.

(** [inputData.data]: reading a property of [undefined] or [null] throws;
    primitives, arrays and objects without the key give [undefined]. *)
Definition get_data (inputData : value) : completion value :=
  match inputData with
  | VUndefined => Throws (fault_exn (ReadOfUndefined "data"))
  | VNull => Throws (fault_exn (ReadOfNull "data"))
  | VObj props =>
      match own_property "data" props with
      | Some v => Returns v
      | None => Returns VUndefined
      end
  | _ => Returns VUndefined
  end.

(** [String(v)], the stack leaving room for [budget] arrays nested in one
    another.  An array is joined with commas, [null] and [undefined]
    elements printing as nothing; the conversion of an element is a call
    within the call, and the engine gives up when the stack is used up.  A
    parsed object prints through [Object.prototype.toString], unless it has
    an own property [toString]: that property is not callable, neither is
    an own [valueOf], and the inherited [valueOf] returns the object, so
    the conversion throws. *)
Fixpoint ToString_at (budget : nat) (v : value) {struct v} : completion string :=
  match v with
  | VUndefined => Returns "undefined"
  | VNull => Returns "null"
  | VBool true => Returns "true"
  | VBool false => Returns "false"
  | VNum n => Returns (Number_toString n)
  | VFrac repr => Returns repr
  | VStr s => Returns s
  | VArr items =>
      match budget with
      | O => Throws (fault_exn StackExhausted)
      | S budget' =>
          let element (x : value) : completion string :=
            match x with
            | VUndefined | VNull => Returns ""
            | _ => ToString_at budget' x
            end in
          (fix join (l : list value) : completion string :=
             match l with
             | [] => Returns ""
             | [x] => element x
             | x :: rest =>
                 let* s := element x in let* t := join rest in Returns (s ++ "," ++ t)
             end) items
      end
  | VObj props =>
      match own_property "toString" props with
      | Some _ => Throws (fault_exn NotPrimitive)
      | None => Returns "[object Object]"
      end
  end.

(** [String(item)], as the loop of the program calls it. *)
Definition ToString (v : value) : completion string := ToString_at stack_depth v.

(** The body of the [forEach] callback. *)
Definition classify_item (st : buckets) (item : value) : completion buckets :=
  let* s := ToString item in
  let str := trim s in
  if test_digits str then
    Returns (mkBuckets (numbers st ++ [parseInt str]) (alphabets st) (specialChars st))
  else if test_letter str then
    Returns (mkBuckets (numbers st) (alphabets st ++ [str]) (specialChars st))
  else if (0 <? String.length str)%nat then
    Returns (mkBuckets (numbers st) (alphabets st) (specialChars st ++ [str]))
  else Returns st.

(** The comparator passed to [sort]. *)
Definition compare_alphabets (a b : string) : Z :=
  if String.eqb a (toUpperCase a) && String.eqb b (toLowerCase b) then -1
  else if String.eqb a (toLowerCase a) && String.eqb b (toUpperCase b) then 1
  else localeCompare a b.

(** Everything after the loop: the aggregates and the success record. *)
Definition assemble (st : buckets) (processed : option string) : Result :=
  let oddNumbers :=
    map Number_toString (filter (fun n => strict_ne_zero (js_rem2 n)) (numbers st)) in
  let evenNumbers :=
    map Number_toString (filter (fun n => strict_eq_zero (js_rem2 n)) (numbers st)) in
  let sum := Number_toString (fold_left (fun acc curr => js_add acc curr) (numbers st) (Fin 0)) in
  let sortedAlphabets := sort compare_alphabets (alphabets st) in
  let concatString := join_empty sortedAlphabets in
  Result.make true None "demo_user_29082025" "demo@example.com" "12345"
    oddNumbers evenNumbers sortedAlphabets (specialChars st) sum concatString
    processed.

(** [processArrayData] of server.js *)
Definition processArrayData (inputData : value) : completion Result :=
  try_catch
    (let* d := get_data inputData in
     let data := js_or d (VArr []) in
     match data with
     | VArr items =>
         let* st := forEach classify_item items no_buckets in
         Returns (assemble st None)
     | _ => Throws (Error "Input data must be an array")
     end)
    (fun error => Returns (failure error)).

(** [processArrayClientSide] of app.js: no [try], no [Array.isArray] test;
    calling [forEach] on a value that is not an array throws. *)
Definition processArrayClientSide (inputData : value) : completion Result :=
  let* d := get_data inputData in
  let data := js_or d (VArr []) in
  match data with
  | VArr items =>
      let* st := forEach classify_item items no_buckets in
      Returns (assemble st (Some "client_side_fallback"))
  | _ => Throws (fault_exn (NotCallable "data.forEach"))
  end.

(** ** Tokens and categories, as the specification names them *)

(** The trimmed string of each item, in order; fails when some item cannot
    be converted to a string. *)
Fixpoint tokens (items : list value) : completion (list string) :=
  match items with
  | [] => Returns []
  | item :: rest =>
      let* s := ToString item in let* ts := tokens rest in Returns (trim s :: ts)
  end.

Definition is_numeric (t : string) : bool := test_digits t.

Definition is_letter (t : string) : bool := negb (test_digits t) && test_letter t.

Definition is_special (t : string) : bool :=
  negb (test_digits t) && negb (test_letter t) && (0 <? String.length t)%nat.

Definition is_empty (t : string) : bool := (String.length t =? 0)%nat.

(** The integer a numeric token denotes. *)
Definition token_value (t : string) : Z :=
  match decimal_value t with
  | Some z => z
  | None => 0
  end.

(** The exact sum of the numeric tokens. *)
Definition exact_sum (toks : list string) : Z :=
  fold_right Z.add 0 (map token_value (filter is_numeric toks)).

(** The sum of the integers a list of decimal strings denotes; [None] when
    one of them is not a decimal string. *)
Fixpoint values_sum (l : list string) : option Z :=
  match l with
  | [] => Some 0
  | s :: rest =>
      match decimal_value s, values_sum rest with
      | Some z, Some r => Some (z + r)
      | _, _ => None
      end
  end.

(** The largest bound below which every integer is a double. *)
Definition max_exact : Z := 2 ^ 53.

(** ** The sort key of the specification *)

(** Modelled on the specification's words: key(c) = (0,c) if c is upper
    case, else (1,c), keys compared lexicographically, the letter by code
    point. *)
Definition key (t : string) : Z * Z :=
  match t with
  | String c _ => (if is_upper c then 0 else 1, Z.of_nat (nat_of_ascii c))
  | EmptyString => (1, -1)
  end.

Definition key_leb (a b : string) : bool :=
  let '(ca, xa) := key a in
  let '(cb, xb) := key b in
  (ca <? cb) || ((ca =? cb) && (xa <=? xb)).

Fixpoint key_insert (x : string) (l : list string) : list string :=
  match l with
  | [] => [x]
  | y :: rest => if key_leb x y then x :: y :: rest else y :: key_insert x rest
  end.

(** Sorting by key. *)
Definition sort_by_key (l : list string) : list string :=
  fold_right key_insert [] l.

(** ** Vocabulary of the statements *)

Definition sum_list (zs : list Z) : Z := fold_right Z.add 0 zs.

Definition single_letter (t : string) : Prop := test_letter t = true.

(** The key order, as a relation. *)
Definition key_le (a b : string) : Prop := key_leb a b = true.

(** The tokens of the array the function loops over: those of
    [inputData.data || []] when that is an array whose items all convert
    to strings. *)
Definition input_tokens (inputData : value) : option (list string) :=
  match get_data inputData with
  | Returns d =>
      match js_or d (VArr []) with
      | VArr items =>
          match tokens items with
          | Returns toks => Some toks
          | Throws _ => None
          end
      | _ => None
      end
  | Throws _ => None
  end.

Definition buckets_of (toks : list string) : buckets :=
  mkBuckets (map parseInt (filter is_numeric toks))
            (filter is_letter toks)
            (filter is_special toks).

(** How the function renders a numeric token, and which side it puts it. *)
Definition render (t : string) : string := Number_toString (parseInt t).

Definition odd_token (t : string) : bool := strict_ne_zero (js_rem2 (parseInt t)).

Definition even_token (t : string) : bool := strict_eq_zero (js_rem2 (parseInt t)).

Definition exactly_one (a b c : bool) : bool :=
  match a, b, c with
  | true, false, false | false, true, false | false, false, true => true
  | _, _, _ => false
  end.

(** A digit string in minimal form: ["0"], or no leading zero. *)
Definition no_leading_zero (s : string) : bool :=
  match s with
  | EmptyString => false
  | String c EmptyString => true
  | String c (String _ _) => negb (Ascii.eqb c "0")
  end.

(** The values of [odd_numbers] and of [even_numbers] add up to the value
    of [sum]. *)
Definition sum_identity (r : Result) : Prop :=
  exists so se s,
    values_sum (Result.odd_numbers r) = Some so /\
    values_sum (Result.even_numbers r) = Some se /\
    decimal_value (Result.sum r) = Some s /\
    so + se = s.

(** The success record of an empty sequence. *)
Definition empty_success : Result :=
  Result.make true None "demo_user_29082025" "demo@example.com" "12345"
    [] [] [] [] "0" "" None.

(** The failure record of the [Array.isArray] guard. *)
Definition not_an_array_failure : Result :=
  Result.make false (Some "Input data must be an array")
    "demo_user_29082025" "demo@example.com" "12345" [] [] [] [] "0" "" None.

(** The fields of the response the specification describes. *)
Definition spec_fields (r : Result)
  : bool * option string * list string * list string * list string
    * list string * string * string :=
  (Result.is_success r, Result.error r, Result.odd_numbers r,
   Result.even_numbers r, Result.alphabets r, Result.special_characters r,
   Result.sum r, Result.concat_string r).

(** Two calls have identical results: both return, with the same value in
    every field the specification describes. *)
Definition identical_results (s c : completion Result) : Prop :=
  match s, c with
  | Returns a, Returns b => spec_fields a = spec_fields b
  | _, _ => False
  end.

(** The record [r] with the field [processed_with] set. *)
Definition with_processed (r : Result) (p : option string) : Result :=
  Result.make (Result.is_success r) (Result.error r) (Result.user_id r)
    (Result.email r) (Result.roll_number r) (Result.odd_numbers r)
    (Result.even_numbers r) (Result.alphabets r) (Result.special_characters r)
    (Result.sum r) (Result.concat_string r) p.

(** ** The route POST /process of server.js *)



(** How many arrays and objects are nested in one another in a value. *)
Fixpoint nesting (v : value) : nat :=
  match v with
  | VArr items => S (list_max (map nesting items))
  | VObj props => S (list_max (map (fun p => nesting (snd p)) props))
  | _ => 0%nat
  end.

(** [JSON.stringify(v, null, 2)], for what the program needs of it: the
    text goes to the log or to the page, and the call throws when the
    arrays and objects of [v] are nested deeper than the stack allows, the
    serialisation of a member being a call within the call. *)
Definition JSON_stringify_log (v : value) : completion unit :=
  if (nesting v <=? stringify_depth)%nat then Returns tt
  else Throws (fault_exn StackExhausted).

(** The object a [Result] is, its properties in the order of the source. *)
Definition Result_object (r : Result) : value :=
  VObj ([("is_success", VBool (Result.is_success r))] ++
        match Result.error r with
        | Some m => [("error", VStr m)]
        | None => []
        end ++
        [("user_id", VStr (Result.user_id r));
         ("email", VStr (Result.email r));
         ("roll_number", VStr (Result.roll_number r));
         ("odd_numbers", VArr (map VStr (Result.odd_numbers r)));
         ("even_numbers", VArr (map VStr (Result.even_numbers r)));
         ("alphabets", VArr (map VStr (Result.alphabets r)));
         ("special_characters", VArr (map VStr (Result.special_characters r)));
         ("sum", VStr (Result.sum r));
         ("concat_string", VStr (Result.concat_string r))] ++
        match Result.processed_with r with
        | Some p => [("processed_with", VStr p)]
        | None => []
        end)%list.


(** ** The submit handler of app.js *)

(** [inputData.hasOwnProperty('data')]: throws on [null] and [undefined],
    and when a parsed object has an own property [hasOwnProperty], which is
    not callable; primitives and arrays have no own property [data]. *)
Definition hasOwnProperty_data (inputData : value) : completion bool :=
  match inputData with
  | VUndefined => Throws (fault_exn (ReadOfUndefined "hasOwnProperty"))
  | VNull => Throws (fault_exn (ReadOfNull "hasOwnProperty"))
  | VObj props =>
      match own_property "hasOwnProperty" props with
      | Some _ => Throws (fault_exn (NotCallable "inputData.hasOwnProperty"))
      | None =>
          match own_property "data" props with
          | Some _ => Returns true
          | None => Returns false
          end
      end
  | _ => Returns false
  end.

(** The character U+0022. *)
Definition dquote : string := String (ascii_of_nat 34) EmptyString.

Definition msg_no_data_field : string :=
  "Input must have a " ++ dquote ++ "data" ++ dquote ++ " field".

Definition msg_data_not_array : string :=
  "The " ++ dquote ++ "data" ++ dquote ++ " field must be an array".

(** What [handleProcessArray] ends with: a result displayed, from the
    backend or from the fallback, or an error message shown. *)
Inductive outcome : Type :=
| DisplayedBackend (result : value)
| DisplayedFallback (result : Result)
| ErrorShown (msg : string).

(** [v.name], [v] being neither [undefined] nor [null], for the names the
    page reads: own properties of a parsed object; a string, a number, a
    boolean or an array has none of them. *)
Definition property (name : string) (v : value) : value :=
  match v with
  | VObj props =>
      match own_property name props with
      | Some x => x
      | None => VUndefined
      end
  | _ => VUndefined
  end.

(** [(v || []).length] *)
Definition length_or_empty (v : value) : value :=
  match js_or v (VArr []) with
  | VStr s => VNum (Fin (Z.of_nat (String.length s)))
  | VArr items => VNum (Fin (Z.of_nat (List.length items)))
  | VObj props => property "length" (VObj props)
  | _ => VUndefined
  end.

(** [displayResult], the page element being there, for what can go wrong
    in it: the template serialises [result], reads [result.is_success],
    which throws when [result] is [null] or [undefined], and converts to
    strings the figures of the summary, in the order of the template (the
    operands of [+] are converted like [String] converts them, and their
    sum is a number or a string).  What the template shows of a record of
    the program is [displayResult_summary] below. *)
Definition displayResult (result : value) : completion unit :=
  let* _ := JSON_stringify_log result in
  let* _ := match result with
            | VUndefined => Throws (fault_exn (ReadOfUndefined "is_success"))
            | VNull => Throws (fault_exn (ReadOfNull "is_success"))
            | _ => Returns tt
            end in
  let odd := length_or_empty (property "odd_numbers" result) in
  let even := length_or_empty (property "even_numbers" result) in
  let* _ := ToString odd in
  let* _ := ToString even in
  let* _ := ToString odd in
  let* _ := ToString even in
  let* _ := ToString (length_or_empty (property "alphabets" result)) in
  let* _ := ToString (length_or_empty (property "special_characters" result)) in
  let* _ := ToString (js_or (property "sum" result) (VStr "0")) in
  Returns tt.

Section SubmitHandler.
(** [JSON.parse]: [None] when it throws. *)
Variable JSON_parse : string -> option value.
(** The inner [try]: the serialisation of the input, the [fetch] of
    [/process] and the reading of its body, whatever the backend sends;
    [None] when one of them throws (the input cannot be serialised, the
    request fails, the status is not ok, the body does not parse). *)
Variable fetch_process : value -> option value.

(** [handleProcessArray] from its [try] on, [raw] being the text of the
    input field (the lookups of the page elements come before, the resets
    of the button after). *)
Definition handleProcessArray (raw : string) : outcome :=
  match
    (let inputText := trim raw in
     if (String.length inputText =? 0)%nat then Throws (Error "Please enter JSON data")
     else
       match JSON_parse inputText with
       | None => Throws (Error "Invalid JSON format. Please check your input.")
       | Some inputData =>
           let* has := hasOwnProperty_data inputData in
           if negb has then Throws (Error msg_no_data_field)
           else
             let* d := get_data inputData in
             if negb (isArray d) then Throws (Error msg_data_not_array)
             else
               match fetch_process inputData with
               | Some result =>
                   let* _ := displayResult result in
                   Returns (DisplayedBackend result)
               | None =>
                   let* result := processArrayClientSide inputData in
                   let* _ := displayResult (Result_object result) in
                   Returns (DisplayedFallback result)
               end
       end)
  with
  | Returns o => o
  | Throws error => ErrorShown (message error)
  end.
End SubmitHandler.

(** ** The summary of displayResult *)

(** The figures [displayResult] prints under the JSON text.  The fields of
    a [Result] are arrays, which are truthy, so [(result.x || []).length]
    is the length of the field; [result.sum || '0'] replaces an empty
    string. *)
Record summary : Type := mkSummary {
  shown_success : bool;
  shown_total : nat;
  shown_odd : nat;
  shown_even : nat;
  shown_alphabets : nat;
  shown_special : nat;
  shown_sum : string
}.

Definition displayResult_summary (result : Result) : summary :=
  mkSummary
    (Result.is_success result)
    (List.length (Result.odd_numbers result) + List.length (Result.even_numbers result))
    (List.length (Result.odd_numbers result))
    (List.length (Result.even_numbers result))
    (List.length (Result.alphabets result))
    (List.length (Result.special_characters result))
    (if (String.length (Result.sum result) =? 0)%nat then "0" else Result.sum result).

(** ** The assertion helpers of test.js *)

(** The two global counters. *)
Record counters : Type := mkCounters {
  testsPassed : nat;
  testsFailed : nat
}.

Inductive assertion : Type :=
| AssertTrue (condition : bool)
| AssertEqual (actual expected : value).

Section Assertions.
(** [JSON.stringify] *)
Variable JSON_stringify : value -> string.

(** [assertTrue(condition, testName)] *)
Definition assertTrue (condition : bool) (c : counters) : counters :=
  if condition then mkCounters (S (testsPassed c)) (testsFailed c)
  else mkCounters (testsPassed c) (S (testsFailed c)).

(** [assertEqual(actual, expected, testName)] *)
Definition assertEqual (actual expected : value) (c : counters) : counters :=
  if String.eqb (JSON_stringify actual) (JSON_stringify expected)
  then mkCounters (S (testsPassed c)) (testsFailed c)
  else mkCounters (testsPassed c) (S (testsFailed c)).

Definition run_assertion (c : counters) (a : assertion) : counters :=
  match a with
  | AssertTrue condition => assertTrue condition c
  | AssertEqual actual expected => assertEqual actual expected c
  end.

(** Whether an assertion holds. *)
Definition holds (a : assertion) : bool :=
  match a with
  | AssertTrue condition => condition
  | AssertEqual actual expected =>
      String.eqb (JSON_stringify actual) (JSON_stringify expected)
  end.

(** The assertions of a run, in order. *)
Definition run_assertions (l : list assertion) (c : counters) : counters :=
  fold_left run_assertion l c.

(** The exit code [runTests] ends with. *)
Definition exit_code (c : counters) : Z :=
  if (testsFailed c =? 0)%nat then 0 else 1.
End Assertions.

(** ** Vocabulary of the further statements *)

(** The strings a result holds, as items of a new input. *)
Definition output_items (r : Result) : list value :=
  map VStr (Result.odd_numbers r ++ Result.even_numbers r ++
            Result.alphabets r ++ Result.special_characters r)%list.

(** An input record whose [data] is the given array. *)
Definition with_data (items : list value) : value := VObj [("data", VArr items)].

(** Items [String] treats like their only element when put in an array:
    all but [null] and [undefined]. *)
Definition prints (v : value) : bool :=
  match v with
  | VUndefined | VNull => false
  | _ => true
  end.

(** A list of characters that does not begin with white space. *)
Definition head_ok (l : list ascii) : bool :=
  match l with
  | [] => true
  | c :: _ => negb (is_space c)
  end.

(** A string without any white space. *)
Definition no_space (s : string) : bool :=
  forallb (fun c => negb (is_space c)) (list_ascii_of_string s).

(** The characters of a string, each as a string. *)
Definition characters (s : string) : list string :=
  map (fun c => String c EmptyString) (list_ascii_of_string s).

(** A string item with its white space removed. *)
Definition trim_item (v : value) : value :=
  match v with
  | VStr s => VStr (trim s)
  | _ => v
  end.

(** An integer item from 0 to 2^53, written as a string of digits. *)
Definition number_as_string (v : value) : value :=
  match v with
  | VNum (Fin z) => if (0 <=? z) && (z <=? max_exact) then VStr (decimal z) else v
  | _ => v
  end.

(** An item put in an array of its own. *)
Definition wrap_item (v : value) : value := if prints v then VArr [v] else v.

(** How many arrays are nested in one another in an item; [String] does
    not look into objects. *)
Fixpoint array_depth (v : value) : nat :=
  match v with
  | VArr items => S (list_max (map array_depth items))
  | _ => 0%nat
  end.

(** The default locale orders the letters of one case by code point, as
    the root collation does. *)
Definition code_point_collation : Prop :=
  forall x y, same_case x y = true ->
    (localeCompare (String x "") (String y "") <=? 0) =
    (nat_of_ascii x <=? nat_of_ascii y)%nat.

(** An element of an array, as [join] prints it. *)
Definition element_string (budget : nat) (x : value) : completion string :=
  match x with
  | VUndefined | VNull => Returns ""
  | _ => ToString_at budget x
  end.

(** An item nested in [n] arrays. *)
Definition nested (n : nat) (v : value) : value := Nat.iter n (fun x => VArr [x]) v.

(** ** Facts about numbers *)

Lemma to_double_exact (z : Z) : 0 <= z <= max_exact -> to_double z = Fin z.
Proof.
  intros [H0 H1]. unfold max_exact in H1.
  destruct (Z.eq_dec z (2 ^ 53)) as [-> | Hne]; [ vm_compute; reflexivity | ].
  assert (Hlt : z < 2 ^ 53) by lia.
  unfold to_double, round_significand.
  rewrite (Z.abs_eq z) by lia.
  assert (Hlog : Z.log2 z < 53).
  { destruct (Z.eq_dec z 0) as [-> | Hz]; [ reflexivity | ].
    apply Z.log2_lt_pow2; lia. }
  apply Z.ltb_lt in Hlog. rewrite Hlog.
  assert (Hbig : (2 ^ 1024 <=? z) = false).
  { apply Z.leb_gt. eapply Z.lt_trans; [ exact Hlt | ]. vm_compute. reflexivity. }
  rewrite Hbig. f_equal.
  destruct (Z.eq_dec z 0) as [-> | Hz]; [ reflexivity | ].
  rewrite Z.sgn_pos by lia. lia.
Qed.

Lemma round_significand_big (c : Z) :
  max_exact < c -> round_significand c <= max_exact -> c = max_exact + 1.
Proof.
  unfold max_exact. intros Hc Hm.
  assert (Hlog : 53 <= Z.log2 c).
  { apply Z.log2_le_pow2; lia. }
  pose proof (Z.log2_spec c ltac:(lia)) as [Hlo Hhi].
  unfold round_significand in Hm.
  destruct (Z.log2 c <? 53) eqn:E; [ apply Z.ltb_lt in E; lia | ].
  set (sh := Z.log2 c - 52) in *.
  assert (Hsh : 1 <= sh) by (unfold sh; lia).
  rewrite Z.shiftr_div_pow2 in Hm by lia.
  rewrite Z.shiftl_mul_pow2 in Hm by lia.
  assert (Hq : 2 ^ 52 <= c / 2 ^ sh).
  { apply Z.div_le_lower_bound; [ apply Z.pow_pos_nonneg; lia | ].
    rewrite <- Z.pow_add_r by lia. replace (sh + 52) with (Z.log2 c) by (unfold sh; lia).
    exact Hlo. }
  set (q := c / 2 ^ sh) in *.
  set (q' := if (Z.shiftl 1 (sh - 1) <? Z.land c (Z.ones sh))
                || ((Z.land c (Z.ones sh) =? Z.shiftl 1 (sh - 1)) && Z.odd q)
             then q + 1 else q) in *.
  assert (Hq' : q <= q') by (unfold q'; destruct (_ || _); lia).
  destruct (Z.eq_dec sh 1) as [Hone | Hne].
  - rewrite Hone in *. change (2 ^ 1) with 2 in *.
    assert (Hq2 : q' = 2 ^ 52) by lia.
    assert (Hq3 : q = 2 ^ 52) by lia.
    pose proof (Z.div_mod c 2 ltac:(lia)) as Hdm.
    pose proof (Z.mod_pos_bound c 2 ltac:(lia)) as Hmod.
    assert (Hq4 : c / 2 = 2 ^ 52).
    { rewrite <- Hq3. unfold q. rewrite Hone. reflexivity. }
    lia.
  - assert (H4 : 2 ^ 2 <= 2 ^ sh) by (apply Z.pow_le_mono_r; lia).
    change (2 ^ 2) with 4 in H4.
    assert (Hprod : 2 ^ 52 * 4 <= q' * 2 ^ sh).
    { apply Z.mul_le_mono_nonneg; lia. }
    change (2 ^ 53) with 9007199254740992 in *. change (2 ^ 52) with 4503599627370496 in *.
    lia.
Qed.

(** Below 2^53 only the integer itself rounds to it, but for 2^53 + 1,
    which rounds to 2^53. *)
Lemma rounds_to_exact (z c : Z) :
  0 <= z <= max_exact -> 0 <= c -> rounds_to z c = true ->
  c = z \/ (c = max_exact + 1 /\ z = max_exact).
Proof.
  intros Hz Hc H. unfold rounds_to in H.
  destruct (Z_le_gt_dec c max_exact) as [Hle | Hgt].
  - rewrite to_double_exact in H by lia. apply Z.eqb_eq in H. left. lia.
  - right. unfold to_double in H. rewrite Z.abs_eq in H by lia.
    destruct (2 ^ 1024 <=? round_significand c); [ destruct (c <? 0); discriminate H | ].
    apply Z.eqb_eq in H. rewrite Z.sgn_pos in H by lia.
    assert (Hc1 : c = max_exact + 1) by (apply round_significand_big; lia).
    split; [ exact Hc1 | ].
    subst c. vm_compute in H. unfold max_exact. lia.
Qed.

Lemma digits_at_exact (z : Z) (k : nat) (s e : Z) :
  0 <= z <= max_exact -> digits_at z k = Some (s, e) -> s * 10 ^ e = z.
Proof.
  intros Hz. unfold digits_at.
  set (e0 := Z.max 0 (digit_count z - Z.of_nat k)).
  assert (He0 : 0 <= e0) by (unfold e0; lia).
  set (p := 10 ^ e0).
  assert (Hp : 0 < p) by (apply Z.pow_pos_nonneg; lia).
  set (lo := z / p).
  pose proof (Z.mul_div_le z p Hp) as Hlo.
  pose proof (Z.mul_succ_div_gt z p Hp) as Hhi.
  rewrite (Z.mul_comm p) in Hlo. fold lo in Hlo.
  replace (p * Z.succ (z / p)) with ((lo + 1) * p) in Hhi by (unfold lo; lia).
  assert (Hlo0 : 0 <= lo) by (unfold lo; apply Z.div_pos; lia).
  assert (HL : rounds_to z (lo * p) = true -> lo * p = z).
  { intros H. destruct (rounds_to_exact z (lo * p) Hz ltac:(nia) H) as [H1 | [H1 _]]; lia. }
  assert (HH : rounds_to z ((lo + 1) * p) = true -> p = 1).
  { intros H. destruct (rounds_to_exact z ((lo + 1) * p) Hz ltac:(nia) H) as [H1 | [H1 H2]];
      [ lia | ].
    destruct (Z.eq_dec e0 0) as [-> | Hne]; [ reflexivity | ].
    exfalso. assert (Hten : p = 10 * 10 ^ (e0 - 1)).
    { unfold p. rewrite <- Z.pow_succ_r by lia. f_equal. lia. }
    assert (Hmod : ((lo + 1) * p) mod 10 = 0).
    { rewrite Hten. replace ((lo + 1) * (10 * 10 ^ (e0 - 1)))
        with ((lo + 1) * 10 ^ (e0 - 1) * 10) by lia.
      apply Z_mod_mult. }
    rewrite H1 in Hmod. vm_compute in Hmod. discriminate Hmod. }
  destruct (rounds_to z (lo * p)) eqn:EL, (rounds_to z ((lo + 1) * p)) eqn:EH; simpl.
  - specialize (HL eq_refl). specialize (HH eq_refl).
    assert (Hpick : (z - lo * p <? (lo + 1) * p - z) = true) by (apply Z.ltb_lt; lia).
    rewrite Hpick. simpl. intros [= <- <-]. exact HL.
  - intros [= <- <-]. exact (HL eq_refl).
  - intros _. exfalso. specialize (HH eq_refl).
    assert (Hex : rounds_to z (lo * p) = true).
    { unfold rounds_to. rewrite to_double_exact by lia.
      apply Z.eqb_eq. unfold lo. rewrite HH. rewrite Z.div_1_r. lia. }
    rewrite Hex in EL. discriminate EL.
  - discriminate.
Qed.

Lemma shortest_digits_exact (z : Z) (fuel : nat) : forall k s e,
  0 <= z <= max_exact -> shortest_digits z k fuel = (s, e) -> s * 10 ^ e = z.
Proof.
  induction fuel as [ | fuel IH]; intros k s e Hz; simpl.
  - intros [= <- <-]. lia.
  - destruct (digits_at z k) as [[s' e'] | ] eqn:E.
    + intros [= <- <-]. exact (digits_at_exact z k s' e' Hz E).
    + apply IH. exact Hz.
Qed.

Lemma max_exact_lt : max_exact < 10 ^ 21.
Proof. vm_compute. reflexivity. Qed.

(** Up to 2^53 a number prints as its digits. *)
Lemma Number_toString_exact (z : Z) :
  0 <= z <= max_exact -> Number_toString (Fin z) = decimal z.
Proof.
  intros Hz. unfold Number_toString, magnitude_toString.
  assert (Hn : (z <? 0) = false) by (apply Z.ltb_ge; lia). rewrite Hn.
  destruct (shortest_digits z 1 17) as [s e] eqn:E.
  rewrite (shortest_digits_exact z 17 1 s e Hz E).
  pose proof max_exact_lt.
  assert (Hlt : (z <? 10 ^ 21) = true) by (apply Z.ltb_lt; lia).
  rewrite Hlt. reflexivity.
Qed.

Lemma decimal_value_decimal (z : Z) : 0 <= z -> decimal_value (decimal z) = Some z.
Proof.
  intros Hz. unfold decimal_value, decimal.
  rewrite NilZero.usu.
  - rewrite DecimalN.Unsigned.of_to. f_equal. lia.
  - intros Hnil.
    pose proof (DecimalN.Unsigned.of_to (Z.to_N z)) as Hz'.
    destruct (Z.to_N z) as [ | p] eqn:E; [ discriminate Hnil | ].
    rewrite Hnil in Hz'. discriminate Hz'.
Qed.

Lemma decimal_value_nonneg (s : string) (z : Z) : decimal_value s = Some z -> 0 <= z.
Proof.
  unfold decimal_value. destruct (NilZero.uint_of_string s); [ | discriminate ].
  intros [= <-]. lia.
Qed.

Lemma uint_of_char_digit (c : ascii) (d : Decimal.uint) :
  is_digit c = true -> exists d', uint_of_char c (Some d) = Some d'.
Proof.
  destruct c as [[|] [|] [|] [|] [|] [|] [|] [|]]; intros H;
    vm_compute in H; try discriminate H; eexists; reflexivity.
Qed.

Lemma uint_of_string_digits (s : string) :
  forallb is_digit (list_ascii_of_string s) = true ->
  exists d, NilEmpty.uint_of_string s = Some d.
Proof.
  induction s as [ | c s IH]; simpl; intros H.
  - eexists; reflexivity.
  - apply andb_true_iff in H as [Hc Hs].
    destruct (IH Hs) as [d ->].
    apply uint_of_char_digit; exact Hc.
Qed.

Lemma is_numeric_value (t : string) :
  is_numeric t = true -> exists z, decimal_value t = Some z /\ 0 <= z.
Proof.
  unfold is_numeric, test_digits, decimal_value. intros H.
  destruct t as [ | c t]; [ discriminate H | ].
  change (list_ascii_of_string (String c t)) with (c :: list_ascii_of_string t) in H.
  destruct (uint_of_string_digits (String c t) H) as [d Hd].
  unfold NilZero.uint_of_string. rewrite Hd.
  eexists; split; [ reflexivity | lia ].
Qed.

Lemma token_value_nonneg (t : string) : 0 <= token_value t.
Proof.
  unfold token_value. destruct (decimal_value t) as [z | ] eqn:E; [ | lia ].
  eapply decimal_value_nonneg; eassumption.
Qed.

Lemma parseInt_exact (t : string) :
  is_numeric t = true -> token_value t <= max_exact ->
  parseInt t = Fin (token_value t).
Proof.
  intros Hn Hle. pose proof (token_value_nonneg t) as H0.
  destruct (is_numeric_value t Hn) as [z [Hz _]].
  unfold parseInt, token_value in *. rewrite Hz in *.
  apply to_double_exact; lia.
Qed.

Lemma rem2_odd (z : Z) : strict_ne_zero (js_rem2 (Fin z)) = Z.odd z.
Proof.
  unfold strict_ne_zero, strict_eq_zero, js_rem2.
  rewrite Zodd_mod. pose proof (Z.rem_mod_nonneg z 2) as Hnn.
  destruct (Z_le_gt_dec 0 z) as [Hz | Hz].
  - rewrite Z.rem_mod_nonneg by lia.
    pose proof (Z.mod_pos_bound z 2 ltac:(lia)).
    destruct (z mod 2 =? 0) eqn:E, (z mod 2 =? 1) eqn:E'; try reflexivity;
      rewrite ?Z.eqb_eq, ?Z.eqb_neq in *; lia.
  - clear Hnn. rewrite <- (Z.opp_involutive z) at 1. rewrite Z.rem_opp_l by lia.
    rewrite Z.rem_mod_nonneg by lia.
    pose proof (Z.mod_pos_bound (- z) 2 ltac:(lia)).
    pose proof (Z.mod_pos_bound z 2 ltac:(lia)).
    assert (Hpar : (- z) mod 2 = z mod 2).
    { replace (- z) with (z + (- z) * 2) by lia. apply Z.mod_add. lia. }
    rewrite Hpar.
    destruct (- (z mod 2) =? 0) eqn:E, (z mod 2 =? 1) eqn:E'; try reflexivity;
      rewrite ?Z.eqb_eq, ?Z.eqb_neq in *; lia.
Qed.

Lemma rem2_even (z : Z) : strict_eq_zero (js_rem2 (Fin z)) = Z.even z.
Proof.
  rewrite <- Z.negb_odd, <- rem2_odd. unfold strict_ne_zero.
  rewrite negb_involutive. reflexivity.
Qed.

(** Every number goes to exactly one of the two filters, the infinities
    (whose remainder is NaN) to the odd one. *)
Lemma odd_or_even (n : number) :
  strict_eq_zero (js_rem2 n) = negb (strict_ne_zero (js_rem2 n)).
Proof. unfold strict_ne_zero. rewrite negb_involutive. reflexivity. Qed.

Lemma fold_add_exact (zs : list Z) : forall acc,
  0 <= acc -> Forall (fun z => 0 <= z) zs -> acc + sum_list zs <= max_exact ->
  fold_left (fun a c => js_add a c) (map Fin zs) (Fin acc) = Fin (acc + sum_list zs).
Proof.
  induction zs as [ | z zs IH]; intros acc Ha Hall Hle; simpl in *.
  - f_equal. lia.
  - inversion Hall as [ | ? ? Hz Hzs]; subst.
    assert (Hs : 0 <= sum_list zs).
    { clear -Hzs. induction Hzs; simpl; lia. }
    rewrite to_double_exact by lia.
    rewrite IH by (try assumption; lia). f_equal. lia.
Qed.

(** ** The conversion of an item to a string *)

(** Induction on values, with the items of an array and the properties of
    an object as sub-values. *)
Section ValueInduction.
Variable P : value -> Prop.
Hypothesis P_undefined : P VUndefined.
Hypothesis P_null : P VNull.
Hypothesis P_bool : forall b, P (VBool b).
Hypothesis P_num : forall n, P (VNum n).
Hypothesis P_frac : forall repr, P (VFrac repr).
Hypothesis P_str : forall s, P (VStr s).
Hypothesis P_arr : forall items, Forall P items -> P (VArr items).
Hypothesis P_obj : forall props, P (VObj props).

Lemma value_induction : forall v, P v.
Proof.
  fix IH 1. intros [ | | b | n | repr | s | items | props].
  - exact P_undefined.
  - exact P_null.
  - apply P_bool.
  - apply P_num.
  - apply P_frac.
  - apply P_str.
  - apply P_arr. induction items as [ | x rest IHrest]; constructor;
      [ apply IH | exact IHrest ].
  - apply P_obj.
Qed.
End ValueInduction.

Lemma ToString_at_single (budget : nat) (x : value) :
  ToString_at (S budget) (VArr [x]) = element_string budget x.
Proof. reflexivity. Qed.

Lemma ToString_at_cons (budget : nat) (x y : value) (rest : list value) :
  ToString_at (S budget) (VArr (x :: y :: rest)) =
  let* s := element_string budget x in
  let* t := ToString_at (S budget) (VArr (y :: rest)) in
  Returns (s ++ "," ++ t).
Proof. reflexivity. Qed.

Lemma array_depth_cons (x : value) (rest : list value) :
  array_depth (VArr (x :: rest)) =
  Nat.max (S (array_depth x)) (array_depth (VArr rest)).
Proof. cbn [array_depth map]. unfold list_max. cbn [fold_right]. lia. Qed.

(** A stack with room for the arrays of the item is as good as any
    other. *)
Lemma ToString_at_enough (v : value) : forall b1 b2,
  (array_depth v <= b1)%nat -> (array_depth v <= b2)%nat ->
  ToString_at b1 v = ToString_at b2 v.
Proof.
  induction v as [ | | b | n | repr | s | items Hall | props] using value_induction;
    intros b1 b2 H1 H2; try reflexivity.
  destruct b1 as [ | b1]; [ simpl in H1; lia | ].
  destruct b2 as [ | b2]; [ simpl in H2; lia | ].
  induction Hall as [ | x l Hx Hl IH]; [ reflexivity | ].
  rewrite array_depth_cons in H1, H2.
  assert (Hel : element_string b1 x = element_string b2 x).
  { destruct x; try reflexivity; apply Hx; lia. }
  destruct l as [ | y l'].
  - rewrite !ToString_at_single. exact Hel.
  - rewrite !ToString_at_cons, Hel, IH by lia. reflexivity.
Qed.

(** The exceptions [String] raises on a parsed value: one for an object
    that cannot be converted, one for arrays nested deeper than the stack
    has room for. *)
Lemma ToString_at_throws (v : value) : forall budget e,
  ToString_at budget v = Throws e ->
  e = fault_exn NotPrimitive \/
  e = fault_exn StackExhausted /\ (budget < array_depth v)%nat.
Proof.
  induction v as [ | | b | n | repr | s | items Hall | props] using value_induction;
    intros budget e H; try discriminate H.
  - destruct b; discriminate H.
  - destruct budget as [ | budget].
    { injection H as <-. right. split; [ reflexivity | simpl; lia ]. }
    revert e H. induction Hall as [ | x l Hx Hl IH]; intros e H; [ discriminate H | ].
    rewrite array_depth_cons.
    assert (Hel : forall e', element_string budget x = Throws e' ->
              e' = fault_exn NotPrimitive \/
              e' = fault_exn StackExhausted /\ (S budget < S (array_depth x))%nat).
    { intros e' He'. destruct x; try discriminate He';
        (destruct (Hx _ _ He') as [-> | [-> Hd]];
         [ left; reflexivity | right; split; [ reflexivity | lia ] ]). }
    destruct l as [ | y l'].
    + rewrite ToString_at_single in H.
      destruct (Hel _ H) as [-> | [-> Hd]];
        [ left; reflexivity | right; split; [ reflexivity | lia ] ].
    + rewrite ToString_at_cons in H.
      destruct (element_string budget x) as [a | e1] eqn:E1.
      * cbn [bind] in H.
        destruct (ToString_at (S budget) (VArr (y :: l'))) as [t | e2] eqn:E2;
          [ discriminate H | ].
        injection H as <-.
        destruct (IH _ eq_refl) as [-> | [-> Hd]];
          [ left; reflexivity | right; split; [ reflexivity | lia ] ].
      * injection H as <-.
        destruct (Hel _ eq_refl) as [-> | [-> Hd]];
          [ left; reflexivity | right; split; [ reflexivity | lia ] ].
  - simpl in H. destruct (own_property "toString" props); [ | discriminate H ].
    injection H as <-. left. reflexivity.
Qed.

Lemma tokens_throws (items : list value) (e : exn) :
  tokens items = Throws e ->
  e = fault_exn NotPrimitive \/
  e = fault_exn StackExhausted /\
  Exists (fun v => (stack_depth < array_depth v)%nat) items.
Proof.
  induction items as [ | v items IH]; simpl; intros H; [ discriminate H | ].
  destruct (ToString v) as [s | e'] eqn:Ev; simpl in H.
  - destruct (tokens items) as [ts | e'']; simpl in H; [ discriminate H | ].
    injection H as <-.
    destruct (IH eq_refl) as [-> | [-> Hd]];
      [ left; reflexivity | right; split; [ reflexivity | ] ].
    apply Exists_cons_tl. exact Hd.
  - injection H as <-.
    destruct (ToString_at_throws _ _ _ Ev) as [-> | [-> Hd]];
      [ left; reflexivity | right; split; [ reflexivity | ] ].
    apply Exists_cons_hd. exact Hd.
Qed.

(** ** The loop, in terms of tokens *)

Lemma forEach_classify (items : list value) : forall st,
  forEach classify_item items st =
  let* toks := tokens items in
  Returns (mkBuckets
             (numbers st ++ map parseInt (filter is_numeric toks))
             (alphabets st ++ filter is_letter toks)
             (specialChars st ++ filter is_special toks)).
Proof.
  induction items as [ | item rest IH]; intros [ns als sps]; simpl.
  - rewrite !app_nil_r. reflexivity.
  - unfold classify_item at 1.
    destruct (ToString item) as [s | e]; simpl; [ | reflexivity ].
    unfold is_numeric, is_letter, is_special.
    destruct (test_digits (trim s)) eqn:Ed; simpl.
    + rewrite IH. destruct (tokens rest) as [ts | e]; simpl; [ | reflexivity ].
      rewrite Ed. simpl. rewrite <- app_assoc. reflexivity.
    + destruct (test_letter (trim s)) eqn:El; simpl.
      * rewrite IH. destruct (tokens rest) as [ts | e]; simpl; [ | reflexivity ].
        rewrite Ed, El. simpl. rewrite <- app_assoc. reflexivity.
      * destruct (0 <? String.length (trim s))%nat eqn:Ee; simpl.
        -- rewrite IH. destruct (tokens rest) as [ts | e]; simpl; [ | reflexivity ].
           rewrite Ed, El, Ee. simpl. rewrite <- app_assoc. reflexivity.
        -- rewrite IH. destruct (tokens rest) as [ts | e]; simpl; [ | reflexivity ].
           rewrite Ed, El, Ee. simpl. reflexivity.
Qed.

(** ** Sorting with a comparator that is a total order on the elements *)

Section SortFacts.
Context {A : Type}.
Variable compareFn : A -> A -> Z.
Variable P : A -> Prop.

Let le (x y : A) : Prop := compareFn x y <= 0.

Hypothesis le_total : forall x y, P x -> P y -> le x y \/ le y x.
Hypothesis le_trans : forall x y z, P x -> P y -> P z -> le x y -> le y z -> le x z.
Hypothesis le_antisym : forall x y, P x -> P y -> le x y -> le y x -> x = y.

Lemma sort_insert_perm (x : A) (l : list A) :
  Permutation (sort_insert compareFn x l) (x :: l).
Proof.
  induction l as [ | y l IH]; simpl.
  - apply Permutation_refl.
  - destruct (compareFn x y <=? 0).
    + apply Permutation_refl.
    + eapply perm_trans; [ apply perm_skip, IH | apply perm_swap ].
Qed.

Lemma sort_perm (l : list A) : Permutation (sort compareFn l) l.
Proof.
  induction l as [ | x l IH]; simpl.
  - apply perm_nil.
  - eapply perm_trans; [ apply sort_insert_perm | apply perm_skip, IH ].
Qed.

Lemma sort_Forall (l : list A) : Forall P l -> Forall P (sort compareFn l).
Proof.
  intros H. eapply Permutation_Forall; [ | exact H ].
  apply Permutation_sym, sort_perm.
Qed.

Lemma sort_insert_sorted (x : A) (l : list A) :
  P x -> Forall P l -> Sorted le l -> Sorted le (sort_insert compareFn x l).
Proof.
  intros Px Pl Hs. induction Hs as [ | y l Hs IH Hhd]; simpl.
  - repeat constructor.
  - inversion Pl as [ | ? ? Py Pl']; subst.
    destruct (compareFn x y <=? 0) eqn:E.
    + apply Z.leb_le in E. repeat constructor; assumption.
    + apply Z.leb_gt in E.
      assert (Hyx : le y x).
      { destruct (le_total x y Px Py) as [H | H]; [ unfold le in H; lia | exact H ]. }
      constructor; [ apply IH; assumption | ].
      destruct l as [ | z l]; simpl.
      * constructor; exact Hyx.
      * destruct (compareFn x z <=? 0); constructor;
          [ exact Hyx | inversion Hhd; assumption ].
Qed.

Lemma sort_sorted (l : list A) : Forall P l -> Sorted le (sort compareFn l).
Proof.
  induction 1 as [ | x l Px Pl IH]; simpl.
  - constructor.
  - apply sort_insert_sorted; [ assumption | apply sort_Forall; assumption | exact IH ].
Qed.

Lemma sort_insert_comm (x y : A) (l : list A) :
  P x -> P y -> Forall P l ->
  sort_insert compareFn x (sort_insert compareFn y l) =
  sort_insert compareFn y (sort_insert compareFn x l).
Proof.
  intros Px Py Pl. induction Pl as [ | z l Pz Pl IH]; simpl.
  - destruct (compareFn x y <=? 0) eqn:Exy, (compareFn y x <=? 0) eqn:Eyx;
      try reflexivity.
    + apply Z.leb_le in Exy, Eyx.
      rewrite (le_antisym x y Px Py Exy Eyx). reflexivity.
    + apply Z.leb_gt in Exy, Eyx.
      destruct (le_total x y Px Py) as [H | H]; unfold le in H; lia.
  - destruct (compareFn y z <=? 0) eqn:Eyz, (compareFn x z <=? 0) eqn:Exz; simpl;
      rewrite ?Eyz, ?Exz.
    + destruct (compareFn x y <=? 0) eqn:Exy, (compareFn y x <=? 0) eqn:Eyx;
        simpl; rewrite ?Eyz, ?Exz; try reflexivity.
      * apply Z.leb_le in Exy, Eyx.
        rewrite (le_antisym x y Px Py Exy Eyx). reflexivity.
      * apply Z.leb_gt in Exy, Eyx.
        destruct (le_total x y Px Py) as [H | H]; unfold le in H; lia.
    + destruct (compareFn x y <=? 0) eqn:Exy; simpl; rewrite ?Eyz, ?Exz.
      * apply Z.leb_le in Exy, Eyz. apply Z.leb_gt in Exz.
        pose proof (le_trans x y z Px Py Pz Exy Eyz) as H. unfold le in H. lia.
      * reflexivity.
    + destruct (compareFn y x <=? 0) eqn:Eyx; simpl; rewrite ?Eyz, ?Exz.
      * apply Z.leb_le in Eyx, Exz. apply Z.leb_gt in Eyz.
        pose proof (le_trans y x z Py Px Pz Eyx Exz) as H. unfold le in H. lia.
      * reflexivity.
    + rewrite IH. reflexivity.
Qed.

Lemma sort_permutation (l1 l2 : list A) :
  Permutation l1 l2 -> Forall P l1 -> sort compareFn l1 = sort compareFn l2.
Proof.
  induction 1 as [ | x l1 l2 Hp IH | x y l | l1 l2 l3 Hp1 IH1 Hp2 IH2]; intros Pl.
  - reflexivity.
  - simpl. inversion Pl; subst. rewrite IH by assumption. reflexivity.
  - simpl. inversion Pl as [ | ? ? Py Pl']; subst.
    inversion Pl' as [ | ? ? Px Pl'']; subst.
    apply sort_insert_comm; try assumption. apply sort_Forall; assumption.
  - rewrite IH1 by assumption. apply IH2.
    eapply Permutation_Forall; eassumption.
Qed.

Lemma sort_idempotent (l : list A) :
  Forall P l -> sort compareFn (sort compareFn l) = sort compareFn l.
Proof.
  intros Pl. apply sort_permutation; [ apply sort_perm | apply sort_Forall, Pl ].
Qed.
End SortFacts.

(** ** The comparator on single letters *)

Lemma letter_case (c : ascii) : letter_char c = true -> is_lower c = negb (is_upper c).
Proof.
  destruct c as [[|] [|] [|] [|] [|] [|] [|] [|]]; intros H;
    vm_compute in H; try discriminate H; reflexivity.
Qed.

Lemma eqb_upper_char (c : ascii) :
  letter_char c = true -> Ascii.eqb c (upper_char c) = is_upper c.
Proof.
  destruct c as [[|] [|] [|] [|] [|] [|] [|] [|]]; intros H;
    vm_compute in H; try discriminate H; reflexivity.
Qed.

Lemma eqb_lower_char (c : ascii) :
  letter_char c = true -> Ascii.eqb c (lower_char c) = is_lower c.
Proof.
  destruct c as [[|] [|] [|] [|] [|] [|] [|] [|]]; intros H;
    vm_compute in H; try discriminate H; reflexivity.
Qed.

Lemma test_letter_inv (t : string) :
  test_letter t = true -> exists c, t = String c EmptyString /\ letter_char c = true.
Proof.
  destruct t as [ | c [ | c' t]]; simpl; try discriminate.
  intros H. exists c. split; [ reflexivity | exact H ].
Qed.

Lemma compare_alphabets_letters (x y : ascii) :
  letter_char x = true -> letter_char y = true ->
  compare_alphabets (String x EmptyString) (String y EmptyString) =
  if is_upper x && negb (is_upper y) then -1
  else if negb (is_upper x) && is_upper y then 1
  else localeCompare (String x EmptyString) (String y EmptyString).
Proof.
  intros Hx Hy. unfold compare_alphabets.
  cbn [toUpperCase toLowerCase String.eqb].
  rewrite !(eqb_upper_char _ Hx), !(eqb_lower_char _ Hx),
          !(eqb_upper_char _ Hy), !(eqb_lower_char _ Hy).
  rewrite (letter_case _ Hx), (letter_case _ Hy).
  destruct (is_upper x), (is_upper y); reflexivity.
Qed.

Lemma same_case_letters (x y : ascii) :
  letter_char x = true -> letter_char y = true -> is_upper x = is_upper y ->
  same_case x y = true.
Proof.
  intros Hx Hy H. unfold same_case. rewrite Hx, Hy, H, eqb_reflx. reflexivity.
Qed.

(** Where the default locale orders by code point, the three-branch
    comparator decides exactly the key order. *)
Lemma compare_alphabets_key (a b : string) :
  code_point_collation ->
  test_letter a = true -> test_letter b = true ->
  (compare_alphabets a b <=? 0) = key_leb a b.
Proof.
  intros Hcp Ha Hb.
  destruct (test_letter_inv a Ha) as [x [-> Hx]].
  destruct (test_letter_inv b Hb) as [y [-> Hy]].
  rewrite (compare_alphabets_letters _ _ Hx Hy). unfold key_leb, key.
  destruct (is_upper x) eqn:Ux, (is_upper y) eqn:Uy; simpl; try reflexivity.
  - rewrite Hcp by (apply same_case_letters; congruence).
    destruct (Nat.leb_spec (nat_of_ascii x) (nat_of_ascii y));
      symmetry; rewrite ?Z.leb_le, ?Z.leb_gt; lia.
  - rewrite Hcp by (apply same_case_letters; congruence).
    destruct (Nat.leb_spec (nat_of_ascii x) (nat_of_ascii y));
      symmetry; rewrite ?Z.leb_le, ?Z.leb_gt; lia.
Qed.

Lemma key_leb_total (a b : string) : key_leb a b = true \/ key_leb b a = true.
Proof.
  unfold key_leb. destruct (key a) as [ca xa], (key b) as [cb xb].
  rewrite !orb_true_iff, !andb_true_iff, !Z.ltb_lt, !Z.eqb_eq, !Z.leb_le. lia.
Qed.

Lemma key_leb_trans (a b c : string) :
  key_leb a b = true -> key_leb b c = true -> key_leb a c = true.
Proof.
  unfold key_leb. destruct (key a) as [ca xa], (key b) as [cb xb], (key c) as [cc xc].
  rewrite !orb_true_iff, !andb_true_iff, !Z.ltb_lt, !Z.eqb_eq, !Z.leb_le. lia.
Qed.

Lemma key_leb_antisym (a b : string) :
  single_letter a -> single_letter b ->
  key_leb a b = true -> key_leb b a = true -> a = b.
Proof.
  intros Ha Hb.
  destruct (test_letter_inv a Ha) as [x [-> Hx]].
  destruct (test_letter_inv b Hb) as [y [-> Hy]].
  unfold key_leb, key.
  rewrite !orb_true_iff, !andb_true_iff, !Z.ltb_lt, !Z.eqb_eq, !Z.leb_le.
  intros H1 H2.
  assert (E : nat_of_ascii x = nat_of_ascii y) by lia.
  apply (f_equal ascii_of_nat) in E. rewrite !ascii_nat_embedding in E.
  rewrite E. reflexivity.
Qed.

(** The comparator is a total order on single letters, whatever the
    locale: this is what the laws of [localeCompare] give. *)
Lemma compare_total (a b : string) :
  single_letter a -> single_letter b ->
  compare_alphabets a b <= 0 \/ compare_alphabets b a <= 0.
Proof.
  intros Ha Hb.
  destruct (test_letter_inv a Ha) as [x [-> Hx]].
  destruct (test_letter_inv b Hb) as [y [-> Hy]].
  rewrite (compare_alphabets_letters _ _ Hx Hy), (compare_alphabets_letters _ _ Hy Hx).
  destruct (is_upper x) eqn:Ux, (is_upper y) eqn:Uy; simpl; try lia;
    rewrite (localeCompare_swap x y) by (apply same_case_letters; congruence); lia.
Qed.

Lemma compare_trans (a b c : string) :
  single_letter a -> single_letter b -> single_letter c ->
  compare_alphabets a b <= 0 -> compare_alphabets b c <= 0 ->
  compare_alphabets a c <= 0.
Proof.
  intros Ha Hb Hc.
  destruct (test_letter_inv a Ha) as [x [-> Hx]].
  destruct (test_letter_inv b Hb) as [y [-> Hy]].
  destruct (test_letter_inv c Hc) as [z [-> Hz]].
  rewrite (compare_alphabets_letters _ _ Hx Hy), (compare_alphabets_letters _ _ Hy Hz),
    (compare_alphabets_letters _ _ Hx Hz).
  destruct (is_upper x) eqn:Ux, (is_upper y) eqn:Uy, (is_upper z) eqn:Uz;
    simpl; try lia;
    apply localeCompare_trans; apply same_case_letters; congruence.
Qed.

Lemma compare_antisym (a b : string) :
  single_letter a -> single_letter b ->
  compare_alphabets a b <= 0 -> compare_alphabets b a <= 0 -> a = b.
Proof.
  intros Ha Hb.
  destruct (test_letter_inv a Ha) as [x [-> Hx]].
  destruct (test_letter_inv b Hb) as [y [-> Hy]].
  rewrite (compare_alphabets_letters _ _ Hx Hy), (compare_alphabets_letters _ _ Hy Hx).
  destruct (is_upper x) eqn:Ux, (is_upper y) eqn:Uy; simpl; try lia;
    (assert (Hs : same_case x y = true) by (apply same_case_letters; congruence);
     rewrite (localeCompare_swap x y Hs); intros H1 H2;
     rewrite (localeCompare_zero x y Hs) by lia; reflexivity).
Qed.

Lemma sort_is_sort_by_key (l : list string) :
  code_point_collation ->
  Forall single_letter l -> sort compare_alphabets l = sort_by_key l.
Proof.
  intros Hcp.
  induction 1 as [ | x l Hx Hl IH]; simpl; [ reflexivity | ].
  rewrite IH.
  assert (Hs : Forall single_letter (sort_by_key l)).
  { rewrite <- IH. apply sort_Forall. exact Hl. }
  clear IH Hl. induction Hs as [ | y l' Hy Hl' IH']; simpl; [ reflexivity | ].
  rewrite (compare_alphabets_key x y Hcp Hx Hy).
  destruct (key_leb x y); [ reflexivity | ]. rewrite IH'. reflexivity.
Qed.

Lemma filter_is_letter_Forall (toks : list string) :
  Forall single_letter (filter is_letter toks).
Proof.
  apply Forall_forall. intros t Ht. apply filter_In in Ht as [_ Ht].
  unfold is_letter in Ht. apply andb_true_iff in Ht as [_ Ht]. exact Ht.
Qed.

Lemma letter_not_digits (t : string) : test_letter t = true -> test_digits t = false.
Proof.
  intros H. destruct (test_letter_inv t H) as [c [-> Hc]].
  unfold test_digits. simpl. rewrite andb_true_r.
  destruct c as [[|] [|] [|] [|] [|] [|] [|] [|]];
    vm_compute in Hc; try discriminate Hc; reflexivity.
Qed.

Lemma is_letter_test_letter (t : string) : is_letter t = test_letter t.
Proof.
  unfold is_letter. destruct (test_letter t) eqn:E.
  - rewrite (letter_not_digits t E). reflexivity.
  - apply andb_false_r.
Qed.

Lemma filter_is_letter (toks : list string) :
  filter is_letter toks = filter test_letter toks.
Proof. apply filter_ext. intros t. apply is_letter_test_letter. Qed.

(** ** The function, in terms of tokens *)

Lemma forEach_tokens (items : list value) (toks : list string) :
  tokens items = Returns toks ->
  forEach classify_item items no_buckets = Returns (buckets_of toks).
Proof. intros H. rewrite forEach_classify, H. reflexivity. Qed.

Lemma forEach_throws (items : list value) (e : exn) :
  tokens items = Throws e -> forEach classify_item items no_buckets = Throws e.
Proof. intros H. rewrite forEach_classify, H. reflexivity. Qed.

Lemma server_on_tokens (inputData : value) (toks : list string) :
  input_tokens inputData = Some toks ->
  processArrayData inputData = Returns (assemble (buckets_of toks) None).
Proof.
  unfold input_tokens, processArrayData. intros H.
  destruct (get_data inputData) as [d | e]; [ | discriminate H ]. simpl.
  destruct (js_or d (VArr [])) as [ | | b | n | f | s | items | props]; try discriminate H.
  destruct (tokens items) as [ts | e] eqn:E; [ | discriminate H ].
  injection H as ->. rewrite (forEach_tokens _ _ E). reflexivity.
Qed.

Lemma client_on_tokens (inputData : value) (toks : list string) :
  input_tokens inputData = Some toks ->
  processArrayClientSide inputData =
  Returns (assemble (buckets_of toks) (Some "client_side_fallback")).
Proof.
  unfold input_tokens, processArrayClientSide. intros H.
  destruct (get_data inputData) as [d | e]; [ | discriminate H ]. simpl.
  destruct (js_or d (VArr [])) as [ | | b | n | f | s | items | props]; try discriminate H.
  destruct (tokens items) as [ts | e] eqn:E; [ | discriminate H ].
  injection H as ->. rewrite (forEach_tokens _ _ E). reflexivity.
Qed.

Lemma server_without_tokens (inputData : value) :
  input_tokens inputData = None ->
  exists e, processArrayData inputData = Returns (failure e).
Proof.
  unfold input_tokens, processArrayData. intros H.
  destruct (get_data inputData) as [d | e]; [ | eexists; reflexivity ]. simpl.
  destruct (js_or d (VArr [])) as [ | | b | n | f | s | items | props];
    try (eexists; reflexivity).
  destruct (tokens items) as [ts | e] eqn:E; [ discriminate H | ].
  rewrite (forEach_throws _ _ E). eexists; reflexivity.
Qed.

Lemma client_without_tokens (inputData : value) :
  input_tokens inputData = None ->
  exists e, processArrayClientSide inputData = Throws e.
Proof.
  unfold input_tokens, processArrayClientSide. intros H.
  destruct (get_data inputData) as [d | e]; [ | eexists; reflexivity ]. simpl.
  destruct (js_or d (VArr [])) as [ | | b | n | f | s | items | props];
    try (eexists; reflexivity).
  destruct (tokens items) as [ts | e] eqn:E; [ discriminate H | ].
  rewrite (forEach_throws _ _ E). eexists; reflexivity.
Qed.

(** A success record comes from the tokens of the input. *)
Lemma success_inv (inputData : value) (r : Result) :
  processArrayData inputData = Returns r -> Result.is_success r = true ->
  exists toks, input_tokens inputData = Some toks /\
               r = assemble (buckets_of toks) None.
Proof.
  intros Hr Hs. destruct (input_tokens inputData) as [toks | ] eqn:E.
  - exists toks. split; [ reflexivity | ].
    rewrite (server_on_tokens _ _ E) in Hr. injection Hr as <-. reflexivity.
  - destruct (server_without_tokens _ E) as [e He].
    rewrite He in Hr. injection Hr as <-. discriminate Hs.
Qed.

(** ** Properties of the specification *)

(** C1, amended: for every input record whose [data] field is present, is
    not an array and is truthy (so not [null], [false], [0], [NaN] or the
    empty string), [processArrayData] returns the failure record:
    [is_success] false, the error description, every sequence field empty,
    sum ["0"], concatenation [""]. *)
Theorem C1_truthy_non_array_fails (props : list (string * value)) (d : value) :
  own_property "data" props = Some d ->
  isArray d = false ->
  truthy d = true ->
  processArrayData (VObj props) = Returns not_an_array_failure.
Proof.
  intros Hd Harr Ht. unfold processArrayData, get_data. rewrite Hd. simpl.
  unfold js_or. rewrite Ht.
  destruct d; try reflexivity. discriminate Harr.
Qed.

(** C7: when the [data] field is absent or holds the empty array,
    [processArrayData] returns the success record with [is_success] true,
    the four array fields empty, sum ["0"] and [concat_string] [""]. *)
Theorem C7_empty_input (props : list (string * value)) :
  own_property "data" props = None \/ own_property "data" props = Some (VArr []) ->
  processArrayData (VObj props) = Returns empty_success.
Proof.
  intros [H | H]; unfold processArrayData, get_data; rewrite H; reflexivity.
Qed.

(** C10: when the [data] field is present and holds [null], [false], [0],
    [NaN] or the empty string, [processArrayData] does not fail: it returns
    the success record of the empty sequence. *)
Theorem C10_falsy_data_is_empty_sequence (props : list (string * value)) (d : value) :
  own_property "data" props = Some d ->
  In d [VNull; VBool false; VNum (Fin 0); VNum NaN; VStr ""] ->
  processArrayData (VObj props) = Returns empty_success.
Proof.
  intros Hd Hin. unfold processArrayData, get_data. rewrite Hd.
  simpl in Hin.
  destruct Hin as [<- | [<- | [<- | [<- | [<- | []]]]]]; reflexivity.
Qed.

(** C2, amended: on every input whose [data] field is absent, falsy or an
    array whose items all convert to strings, the two functions return the
    same success record, the client's with one more field,
    [processed_with]; on every other input the server function returns a
    failure record and the client function throws. *)
Theorem C2_server_and_client (inputData : value) :
  (forall toks, input_tokens inputData = Some toks ->
     exists r,
       processArrayData inputData = Returns r /\
       processArrayClientSide inputData =
         Returns (with_processed r (Some "client_side_fallback")) /\
       Result.is_success r = true /\
       identical_results (processArrayData inputData)
                         (processArrayClientSide inputData)) /\
  (input_tokens inputData = None ->
     (exists e, processArrayData inputData = Returns (failure e)) /\
     (exists e, processArrayClientSide inputData = Throws e)).
Proof.
  split.
  - intros toks H. exists (assemble (buckets_of toks) None).
    rewrite (server_on_tokens _ _ H), (client_on_tokens _ _ H).
    repeat split.
  - intros H. split.
    + apply server_without_tokens; exact H.
    + apply client_without_tokens; exact H.
Qed.

(** C3, amended: [processArrayData] is total: on every input it returns a
    record tagged success, or tagged failure with an error description.
    [processArrayClientSide] returns exactly on the inputs whose [data]
    field is absent, falsy or an array whose items all convert to strings,
    and throws on the others: a [TypeError], or, for an item whose arrays
    are nested deeper than the stack has room for, the error of the
    exhausted stack, a [RangeError]. *)
Theorem C3_server_total (inputData : value) :
  (exists r, processArrayData inputData = Returns r /\
     (Result.is_success r = true /\ Result.error r = None \/
      Result.is_success r = false /\ exists m, Result.error r = Some m)) /\
  ((exists r, processArrayClientSide inputData = Returns r) <->
   (exists toks, input_tokens inputData = Some toks)) /\
  (input_tokens inputData = None ->
   exists e, processArrayClientSide inputData = Throws e /\
     ((exists m, e = TypeError m) \/
      e = RangeError (wording StackExhausted) /\
      exists items, get_data inputData = Returns (VArr items) /\
                    Exists (fun v => (stack_depth < array_depth v)%nat) items)).
Proof.
  split; [ | split ].
  - destruct (input_tokens inputData) as [toks | ] eqn:Etok.
    + exists (assemble (buckets_of toks) None).
      split; [ apply server_on_tokens; exact Etok | left; split; reflexivity ].
    + destruct (server_without_tokens _ Etok) as [e He].
      exists (failure e). split; [ exact He | right ].
      split; [ reflexivity | eexists; reflexivity ].
  - split.
    + intros [r Hr]. destruct (input_tokens inputData) as [toks | ] eqn:Etok.
      * exists toks; reflexivity.
      * destruct (client_without_tokens _ Etok) as [e He].
        rewrite He in Hr. discriminate Hr.
    + intros [toks Etok]. eexists. apply client_on_tokens; exact Etok.
  - unfold input_tokens, processArrayClientSide. intros H.
    destruct (get_data inputData) as [d | e] eqn:Eg.
    + cbn [bind].
      destruct (js_or d (VArr [])) as [ | | b | n | f | s | items | props] eqn:Eor;
        try (eexists; split; [ reflexivity | left; eexists; reflexivity ]).
      destruct (tokens items) as [ts | e] eqn:Et; [ discriminate H | ].
      rewrite (forEach_throws _ _ Et). exists e. split; [ reflexivity | ].
      destruct (tokens_throws _ _ Et) as [-> | [-> Hd]];
        [ left; eexists; reflexivity | right ].
      split; [ reflexivity | ]. exists items. split; [ | exact Hd ].
      unfold js_or in Eor. destruct (truthy d).
      * rewrite Eor. reflexivity.
      * injection Eor as <-. inversion Hd.
    + exists e. split; [ reflexivity | left ].
      destruct inputData as [ | | b | n | f | s | items | props]; try discriminate Eg.
      * injection Eg as <-. eexists; reflexivity.
      * injection Eg as <-. eexists; reflexivity.
      * simpl in Eg. destruct (own_property "data" props); discriminate Eg.
Qed.

Lemma assemble_alphabets (toks : list string) (p : option string) :
  Result.alphabets (assemble (buckets_of toks) p) =
  sort compare_alphabets (filter test_letter toks).
Proof. simpl. rewrite filter_is_letter. reflexivity. Qed.

Lemma filter_test_letter_Forall (toks : list string) :
  Forall single_letter (filter test_letter toks).
Proof. rewrite <- filter_is_letter. apply filter_is_letter_Forall. Qed.

Lemma sorted_by_key (l : list string) :
  code_point_collation ->
  Forall single_letter l -> Sorted key_le (sort compare_alphabets l).
Proof.
  intros Hcp Hl.
  pose proof (sort_sorted compare_alphabets single_letter compare_total l Hl) as Hs.
  pose proof (sort_Forall compare_alphabets single_letter l Hl) as Hf.
  induction Hs as [ | x l' Hs IH Hhd]; constructor.
  - apply IH. inversion Hf; assumption.
  - inversion Hf as [ | ? ? Hx Hl']; subst.
    destruct Hhd as [ | y l'' Hxy]; constructor.
    inversion Hl' as [ | ? ? Hy _]; subst.
    unfold key_le. rewrite <- (compare_alphabets_key _ _ Hcp) by assumption.
    apply Z.leb_le. exact Hxy.
Qed.

(** C5, amended: where the default locale of the process orders the
    letters of one case by code point (as the root collation and English
    do), the [alphabets] field of a success record is the single-letter
    tokens sorted by the key [(0,c)] for an upper-case letter and [(1,c)]
    for a lower-case one: it equals the sort by key, it is ordered by the
    key order, and it is a rearrangement of the letter tokens.  In that
    order every upper-case letter is before every lower-case one and
    letters of one case go by code point. *)
Theorem C5_alphabets_sorted_by_key (inputData : value) (r : Result) :
  code_point_collation ->
  processArrayData inputData = Returns r ->
  Result.is_success r = true ->
  exists toks,
    input_tokens inputData = Some toks /\
    Result.alphabets r = sort_by_key (filter test_letter toks) /\
    Sorted key_le (Result.alphabets r) /\
    Permutation (Result.alphabets r) (filter test_letter toks) /\
    (forall x y, is_upper x = true -> is_lower y = true ->
       key_le (String x EmptyString) (String y EmptyString) /\
       ~ key_le (String y EmptyString) (String x EmptyString)) /\
    (forall x y, is_upper x = is_upper y ->
       (key_le (String x EmptyString) (String y EmptyString) <->
        (nat_of_ascii x <= nat_of_ascii y)%nat)).
Proof.
  intros Hcp Hr Hs. destruct (success_inv _ _ Hr Hs) as [toks [Ht ->]].
  exists toks. rewrite assemble_alphabets.
  pose proof (filter_test_letter_Forall toks) as Hl.
  split; [ exact Ht | ]. split; [ apply (sort_is_sort_by_key _ Hcp); exact Hl | ].
  split; [ apply (sorted_by_key _ Hcp); exact Hl | ].
  split; [ apply sort_perm | ]. split.
  - intros x y Hx Hy. unfold key_le, key_leb, key. rewrite Hx.
    assert (Hy' : is_upper y = false).
    { destruct y as [[|] [|] [|] [|] [|] [|] [|] [|]];
        vm_compute in Hy; try discriminate Hy; reflexivity. }
    rewrite Hy'. split; [ reflexivity | ]. simpl. discriminate.
  - intros x y Hxy. unfold key_le, key_leb, key. rewrite Hxy.
    rewrite Z.ltb_irrefl, Z.eqb_refl. simpl. rewrite Z.leb_le. lia.
Qed.

(** C9: sorting the [alphabets] output again gives the same sequence; and
    two inputs whose letter tokens are rearrangements of one another get
    the same [alphabets] and the same [concat_string]. *)
Theorem C9_sort_idempotent_and_permutation_invariant :
  (forall inputData r,
     processArrayData inputData = Returns r ->
     Result.is_success r = true ->
     sort compare_alphabets (Result.alphabets r) = Result.alphabets r) /\
  (forall input1 input2 r1 r2 toks1 toks2,
     processArrayData input1 = Returns r1 ->
     processArrayData input2 = Returns r2 ->
     input_tokens input1 = Some toks1 ->
     input_tokens input2 = Some toks2 ->
     Permutation (filter test_letter toks1) (filter test_letter toks2) ->
     Result.alphabets r1 = Result.alphabets r2 /\
     Result.concat_string r1 = Result.concat_string r2).
Proof.
  split.
  - intros inputData r Hr Hs. destruct (success_inv _ _ Hr Hs) as [toks [_ ->]].
    rewrite assemble_alphabets.
    apply (sort_idempotent compare_alphabets single_letter
             compare_total compare_trans compare_antisym).
    apply filter_test_letter_Forall.
  - intros input1 input2 r1 r2 toks1 toks2 H1 H2 T1 T2 Hp.
    rewrite (server_on_tokens _ _ T1) in H1. injection H1 as <-.
    rewrite (server_on_tokens _ _ T2) in H2. injection H2 as <-.
    assert (E : Result.alphabets (assemble (buckets_of toks1) None) =
                Result.alphabets (assemble (buckets_of toks2) None)).
    { rewrite !assemble_alphabets.
      apply (sort_permutation compare_alphabets single_letter
               compare_total compare_trans compare_antisym); [ exact Hp | ].
      apply filter_test_letter_Forall. }
    split; [ exact E | ].
    change (join_empty (Result.alphabets (assemble (buckets_of toks1) None)) =
            join_empty (Result.alphabets (assemble (buckets_of toks2) None))).
    rewrite E. reflexivity.
Qed.

(** ** Numeric tokens in the output *)

Lemma decimal_minimal (z : Z) : no_leading_zero (decimal z) = true.
Proof.
  unfold decimal. set (n := Z.to_N z).
  assert (H : N.to_uint n = Decimal.unorm (N.to_uint n)).
  { rewrite <- (DecimalN.Unsigned.of_to n) at 1. apply DecimalN.Unsigned.to_of. }
  rewrite H. unfold Decimal.unorm.
  destruct (Decimal.nzhead (N.to_uint n)) as [ | u | u | u | u | u | u | u | u | u | u] eqn:E;
    try reflexivity;
    try (destruct u; reflexivity).
  exfalso. exact (DecimalFacts.nzhead_nonzero _ _ E).
Qed.

Lemma filter_map_swap {A B : Type} (g : A -> B) (f : B -> bool) (l : list A) :
  filter f (map g l) = map g (filter (fun x => f (g x)) l).
Proof.
  induction l as [ | x l IH]; simpl; [ reflexivity | ].
  destruct (f (g x)); simpl; rewrite IH; reflexivity.
Qed.

Lemma filter_split_perm {A : Type} (f g : A -> bool) (l : list A) :
  (forall x, g x = negb (f x)) ->
  Permutation (filter f l ++ filter g l) l.
Proof.
  intros Hg. induction l as [ | x l IH]; simpl; [ apply perm_nil | ].
  rewrite Hg. destruct (f x); simpl.
  - apply perm_skip, IH.
  - apply Permutation_sym, Permutation_cons_app, Permutation_sym, IH.
Qed.

Lemma assemble_odd (toks : list string) (p : option string) :
  Result.odd_numbers (assemble (buckets_of toks) p) =
  map render (filter odd_token (filter is_numeric toks)).
Proof.
  simpl. rewrite filter_map_swap, map_map. reflexivity.
Qed.

Lemma assemble_even (toks : list string) (p : option string) :
  Result.even_numbers (assemble (buckets_of toks) p) =
  map render (filter even_token (filter is_numeric toks)).
Proof.
  simpl. rewrite filter_map_swap, map_map. reflexivity.
Qed.

Lemma sum_list_nonneg (zs : list Z) : Forall (fun z => 0 <= z) zs -> 0 <= sum_list zs.
Proof. induction 1; simpl; lia. Qed.

Lemma in_le_sum_list (zs : list Z) (z : Z) :
  Forall (fun z => 0 <= z) zs -> In z zs -> z <= sum_list zs.
Proof.
  induction 1 as [ | x l Hx Hl IH]; simpl; intros Hin; [ contradiction | ].
  pose proof (sum_list_nonneg l Hl). destruct Hin as [-> | Hin]; [ lia | ].
  specialize (IH Hin). lia.
Qed.

Lemma token_values_nonneg (l : list string) :
  Forall (fun z => 0 <= z) (map token_value l).
Proof.
  apply Forall_forall. intros z Hz. apply in_map_iff in Hz as [t [<- _]].
  apply token_value_nonneg.
Qed.

Lemma exact_sum_sum_list (toks : list string) :
  exact_sum toks = sum_list (map token_value (filter is_numeric toks)).
Proof. reflexivity. Qed.

(** Below the bound, a numeric token is parsed exactly. *)
Lemma token_exact (toks : list string) (t : string) :
  exact_sum toks <= max_exact -> In t toks -> is_numeric t = true ->
  parseInt t = Fin (token_value t) /\ 0 <= token_value t <= max_exact.
Proof.
  intros Hle Hin Hn.
  assert (Hv : token_value t <= max_exact).
  { eapply Z.le_trans; [ | exact Hle ]. rewrite exact_sum_sum_list.
    apply in_le_sum_list; [ apply token_values_nonneg | ].
    apply in_map. apply filter_In. split; assumption. }
  pose proof (token_value_nonneg t).
  split; [ apply parseInt_exact; assumption | lia ].
Qed.

Lemma render_exact (toks : list string) (t : string) :
  exact_sum toks <= max_exact -> In t toks -> is_numeric t = true ->
  render t = decimal (token_value t) /\ odd_token t = Z.odd (token_value t) /\
  even_token t = Z.even (token_value t).
Proof.
  intros Hle Hin Hn. destruct (token_exact toks t Hle Hin Hn) as [Hp Hb].
  unfold render, odd_token, even_token. rewrite Hp.
  split; [ apply Number_toString_exact; lia | ].
  split; [ apply rem2_odd | apply rem2_even ].
Qed.

Lemma parse_all_exact (toks : list string) :
  exact_sum toks <= max_exact ->
  map parseInt (filter is_numeric toks) =
  map Fin (map token_value (filter is_numeric toks)).
Proof.
  intros Hle. rewrite map_map. apply map_ext_in. intros t Ht.
  apply filter_In in Ht as [Hin Hn].
  apply (token_exact toks t Hle Hin Hn).
Qed.

Lemma assemble_sum (toks : list string) (p : option string) :
  Result.sum (assemble (buckets_of toks) p) =
  Number_toString
    (fold_left (fun acc curr => js_add acc curr)
       (map parseInt (filter is_numeric toks)) (Fin 0)).
Proof. reflexivity. Qed.

(** Below the bound, the accumulator of [reduce] is the exact sum. *)
Lemma assemble_sum_exact (toks : list string) (p : option string) :
  exact_sum toks <= max_exact ->
  Result.sum (assemble (buckets_of toks) p) = decimal (exact_sum toks).
Proof.
  intros Hle. rewrite assemble_sum, (parse_all_exact toks Hle).
  rewrite exact_sum_sum_list in *.
  pose proof (token_values_nonneg (filter is_numeric toks)) as Hnn.
  pose proof (sum_list_nonneg _ Hnn) as Hs. pose proof max_exact_lt as Hm.
  rewrite fold_add_exact by (try assumption; lia).
  rewrite Z.add_0_l. apply Number_toString_exact. lia.
Qed.

Lemma values_sum_render (toks l : list string) :
  exact_sum toks <= max_exact ->
  (forall t, In t l -> In t toks /\ is_numeric t = true) ->
  values_sum (map render l) = Some (sum_list (map token_value l)).
Proof.
  intros Hle. induction l as [ | t l IH]; intros Hl; simpl; [ reflexivity | ].
  destruct (Hl t (or_introl eq_refl)) as [Hin Hn].
  destruct (render_exact toks t Hle Hin Hn) as [-> _].
  rewrite decimal_value_decimal by apply token_value_nonneg.
  rewrite IH; [ reflexivity | ].
  intros t' Ht'. apply Hl. right. exact Ht'.
Qed.

Lemma sum_list_app (l1 l2 : list Z) : sum_list (l1 ++ l2) = sum_list l1 + sum_list l2.
Proof. induction l1 as [ | x l1 IH]; simpl; [ reflexivity | rewrite IH; lia ]. Qed.

Lemma sum_list_split (f g : string -> bool) (l : list string) :
  (forall x, g x = negb (f x)) ->
  sum_list (map token_value (filter f l)) + sum_list (map token_value (filter g l)) =
  sum_list (map token_value l).
Proof.
  intros Hg. induction l as [ | x l IH]; simpl; [ reflexivity | ].
  rewrite Hg. destruct (f x); simpl; lia.
Qed.

Lemma classification_exclusive (t : string) :
  is_empty t = false ->
  exactly_one (is_numeric t) (test_letter t) (is_special t) = true.
Proof.
  unfold is_empty, is_special, is_numeric. intros He.
  assert (Hlen : (0 <? String.length t)%nat = true).
  { apply Nat.ltb_lt. apply Nat.eqb_neq in He. lia. }
  rewrite Hlen.
  destruct (test_letter t) eqn:El.
  - rewrite (letter_not_digits t El). reflexivity.
  - destruct (test_digits t); reflexivity.
Qed.

Lemma empty_token_dropped (t : string) :
  is_empty t = true ->
  is_numeric t = false /\ test_letter t = false /\ is_special t = false.
Proof.
  unfold is_empty. intros He. apply Nat.eqb_eq in He.
  destruct t; [ repeat split | discriminate He ].
Qed.

Lemma category_count (toks : list string) :
  (List.length (filter is_numeric toks) + List.length (filter test_letter toks) +
   List.length (filter is_special toks) =
   List.length (filter (fun t => negb (is_empty t)) toks))%nat.
Proof.
  induction toks as [ | t toks IH]; simpl; [ reflexivity | ].
  destruct (is_empty t) eqn:He.
  - destruct (empty_token_dropped t He) as [-> [-> ->]]. simpl. exact IH.
  - pose proof (classification_exclusive t He) as H.
    destruct (is_numeric t), (test_letter t), (is_special t);
      try discriminate H; simpl; lia.
Qed.

(** C4, amended: on a success record, each non-empty trimmed token is in
    exactly one of the numeric, letter and special categories and is
    assigned to the matching field; [odd_numbers] and [even_numbers] hold,
    each in first-seen order, the rendered numeric tokens, and together they
    are a rearrangement of all of them; and when the exact sum of the
    numeric tokens is at most 2^53, the values of [odd_numbers] and of
    [even_numbers] add up to the value of [sum]. *)
Theorem C4_partition (inputData : value) (r : Result) :
  processArrayData inputData = Returns r ->
  Result.is_success r = true ->
  exists toks,
    input_tokens inputData = Some toks /\
    (forall t, In t toks -> is_empty t = false ->
       exactly_one (is_numeric t) (test_letter t) (is_special t) = true) /\
    Result.odd_numbers r = map render (filter odd_token (filter is_numeric toks)) /\
    Result.even_numbers r = map render (filter even_token (filter is_numeric toks)) /\
    (forall t, odd_token t = negb (even_token t)) /\
    Permutation (Result.odd_numbers r ++ Result.even_numbers r)
                (map render (filter is_numeric toks)) /\
    Permutation (Result.alphabets r) (filter test_letter toks) /\
    Result.special_characters r = filter is_special toks /\
    (List.length (Result.odd_numbers r) + List.length (Result.even_numbers r) +
     List.length (Result.alphabets r) + List.length (Result.special_characters r) =
     List.length (filter (fun t => negb (is_empty t)) toks))%nat /\
    (exact_sum toks <= max_exact -> sum_identity r).
Proof.
  intros Hr Hs. destruct (success_inv _ _ Hr Hs) as [toks [Ht ->]].
  exists toks. split; [ exact Ht | ].
  assert (Hperm : Permutation
            (Result.odd_numbers (assemble (buckets_of toks) None) ++
             Result.even_numbers (assemble (buckets_of toks) None))
            (map render (filter is_numeric toks))).
  { rewrite assemble_odd, assemble_even, <- map_app.
    apply Permutation_map. apply filter_split_perm.
    intros t. apply odd_or_even. }
  assert (Halpha : Permutation (Result.alphabets (assemble (buckets_of toks) None))
                               (filter test_letter toks)).
  { rewrite assemble_alphabets. apply sort_perm. }
  split; [ intros t _ He; apply classification_exclusive; exact He | ].
  split; [ apply assemble_odd | ]. split; [ apply assemble_even | ].
  split; [ intros t; unfold odd_token, even_token, strict_ne_zero; reflexivity | ].
  split; [ exact Hperm | ]. split; [ exact Halpha | ].
  split; [ reflexivity | ]. split.
  - rewrite <- length_app, (Permutation_length Hperm), (Permutation_length Halpha).
    rewrite length_map. apply category_count.
  - intros Hle. unfold sum_identity.
    exists (sum_list (map token_value (filter odd_token (filter is_numeric toks)))),
           (sum_list (map token_value (filter even_token (filter is_numeric toks)))),
           (exact_sum toks).
    rewrite assemble_odd, assemble_even, (assemble_sum_exact toks None Hle).
    assert (Hin : forall f t, In t (filter f (filter is_numeric toks)) ->
                              In t toks /\ is_numeric t = true).
    { intros f t H. apply filter_In in H as [H _]. apply filter_In in H. exact H. }
    split; [ apply (values_sum_render toks); [ exact Hle | apply Hin ] | ].
    split; [ apply (values_sum_render toks); [ exact Hle | apply Hin ] | ].
    split.
    + apply decimal_value_decimal. rewrite exact_sum_sum_list.
      apply sum_list_nonneg, token_values_nonneg.
    + rewrite exact_sum_sum_list. apply sum_list_split.
      intros t. apply odd_or_even.
Qed.

(** C6, amended: on a success record, when the exact sum of the integer
    values of the numeric tokens is at most 2^53 = 9007199254740992, the
    [sum] field is the decimal string of that exact sum; it is ["0"] when
    there is no numeric token.  The accumulator is a double. *)
Theorem C6_sum_exact_below_bound (inputData : value) (r : Result) :
  processArrayData inputData = Returns r ->
  Result.is_success r = true ->
  exists toks,
    input_tokens inputData = Some toks /\
    (exact_sum toks <= max_exact -> Result.sum r = decimal (exact_sum toks)) /\
    (filter is_numeric toks = [] -> Result.sum r = "0").
Proof.
  intros Hr Hs. destruct (success_inv _ _ Hr Hs) as [toks [Ht ->]].
  exists toks. split; [ exact Ht | ]. split.
  - apply assemble_sum_exact.
  - intros Hnone. rewrite assemble_sum, Hnone. reflexivity.
Qed.

Lemma digits_at_sound (z : Z) (k : nat) (s e : Z) :
  0 <= z -> digits_at z k = Some (s, e) ->
  0 <= s /\ 0 <= e /\ rounds_to z (s * 10 ^ e) = true.
Proof.
  intros Hz. unfold digits_at.
  set (e0 := Z.max 0 (digit_count z - Z.of_nat k)).
  assert (He0 : 0 <= e0) by (unfold e0; lia).
  assert (Hp : 0 < 10 ^ e0) by (apply Z.pow_pos_nonneg; lia).
  assert (Hlo0 : 0 <= z / 10 ^ e0) by (apply Z.div_pos; lia).
  destruct (rounds_to z (z / 10 ^ e0 * 10 ^ e0)) eqn:EL,
           (rounds_to z ((z / 10 ^ e0 + 1) * 10 ^ e0)) eqn:EH; simpl.
  - destruct ((z - z / 10 ^ e0 * 10 ^ e0 <? (z / 10 ^ e0 + 1) * 10 ^ e0 - z)
              || ((z - z / 10 ^ e0 * 10 ^ e0 =? (z / 10 ^ e0 + 1) * 10 ^ e0 - z)
                  && Z.even (z / 10 ^ e0)));
      intros [= <- <-]; repeat split; try lia; assumption.
  - intros [= <- <-]. repeat split; try lia; assumption.
  - intros [= <- <-]. repeat split; try lia; assumption.
  - discriminate.
Qed.

(** The digits found denote the number, or a decimal that rounds to it. *)
Lemma shortest_digits_sound (z : Z) (fuel : nat) : forall k s e,
  0 <= z -> shortest_digits z k fuel = (s, e) ->
  0 <= s /\ 0 <= e /\ (s * 10 ^ e = z \/ rounds_to z (s * 10 ^ e) = true).
Proof.
  induction fuel as [ | fuel IH]; intros k s e Hz; simpl.
  - intros [= <- <-]. split; [ lia | ]. split; [ lia | ]. left. lia.
  - destruct (digits_at z k) as [[s' e'] | ] eqn:E.
    + intros [= <- <-]. destruct (digits_at_sound z k s' e' Hz E) as [H1 [H2 H3]].
      repeat split; try assumption. right. exact H3.
    + apply IH. exact Hz.
Qed.

Lemma exponent_notation_not_digit (s e : Z) (c : ascii) :
  exponent_notation s e <> String c EmptyString.
Proof.
  unfold exponent_notation.
  destruct (strip_zeros (S (Z.to_nat (Z.log2 s))) s e) as [s' e'].
  destruct (decimal s') as [ | c1 [ | c2 rest]]; simpl; discriminate.
Qed.

(** Whatever number prints as ["7"] goes to the odd side. *)
Lemma seven_is_not_even (n : number) :
  Number_toString n = "7" -> strict_eq_zero (js_rem2 n) = false.
Proof.
  destruct n as [z | | | ]; try reflexivity.
  intros H. rewrite rem2_even. unfold Number_toString in H.
  destruct (z <? 0) eqn:Hneg; [ discriminate H | ].
  unfold magnitude_toString in H. apply Z.ltb_ge in Hneg.
  destruct (shortest_digits z 1 17) as [s e] eqn:E.
  destruct (shortest_digits_sound z 17 1 s e Hneg E) as [Hs [He Hv]].
  destruct (s * 10 ^ e <? 10 ^ 21).
  - assert (H0 : 0 <= s * 10 ^ e).
    { apply Z.mul_nonneg_nonneg; [ exact Hs | apply Z.pow_nonneg; lia ]. }
    pose proof (decimal_value_decimal _ H0) as Hd.
    rewrite H in Hd. change (decimal_value "7") with (Some 7) in Hd.
    assert (Hd' : s * 10 ^ e = 7) by congruence.
    rewrite Hd' in Hv. destruct Hv as [<- | Hr]; [ reflexivity | ].
    unfold rounds_to in Hr. change (to_double 7) with (Fin 7) in Hr.
    apply Z.eqb_eq in Hr. rewrite <- Hr. reflexivity.
  - exfalso. exact (exponent_notation_not_digit _ _ _ H).
Qed.

Lemma exact_sum_app (l1 l2 : list string) :
  exact_sum (l1 ++ l2) = exact_sum l1 + exact_sum l2.
Proof.
  rewrite !exact_sum_sum_list, filter_app, map_app. apply sum_list_app.
Qed.

Lemma round_significand_nonneg (z : Z) : 0 <= z -> 0 <= round_significand z.
Proof.
  intros Hz. unfold round_significand.
  destruct (Z.log2 z <? 53); [ exact Hz | ].
  apply Z.shiftl_nonneg.
  assert (Hq : 0 <= Z.shiftr z (Z.log2 z - 52)) by (apply Z.shiftr_nonneg; exact Hz).
  destruct ((Z.shiftl 1 (Z.log2 z - 52 - 1) <? Z.land z (Z.ones (Z.log2 z - 52)))
            || ((Z.land z (Z.ones (Z.log2 z - 52)) =? Z.shiftl 1 (Z.log2 z - 52 - 1))
                && Z.odd (Z.shiftr z (Z.log2 z - 52)))); lia.
Qed.

Lemma parseInt_nonneg (t : string) (z : Z) : parseInt t = Fin z -> 0 <= z.
Proof.
  unfold parseInt. destruct (decimal_value t) as [v | ] eqn:E; [ | discriminate ].
  pose proof (decimal_value_nonneg t v E) as Hv.
  unfold to_double.
  pose proof (round_significand_nonneg (Z.abs v) (Z.abs_nonneg v)) as Hm.
  destruct (2 ^ 1024 <=? round_significand (Z.abs v)).
  - destruct (v <? 0); discriminate.
  - intros [= <-]. apply Z.mul_nonneg_nonneg; [ | exact Hm ].
    apply Z.sgn_nonneg. exact Hv.
Qed.

(** C8, amended: on a success record, every numeric token whose parsed
    value is at most 2^53 is rendered in the minimal decimal form of the
    parsed integer (a digit string of that value with no leading zero) and
    put in [odd_numbers] when that integer is odd, in [even_numbers]
    otherwise; the parsed integer is the token's value when that is at most
    2^53.  A token ["007"] appears as ["7"] in [odd_numbers], ["7"] never
    appears in [even_numbers], and the token counts 7 in the exact sum,
    which is what [sum] shows when it is at most 2^53. *)
Theorem C8_canonical_rendering (inputData : value) (r : Result) :
  processArrayData inputData = Returns r ->
  Result.is_success r = true ->
  exists toks,
    input_tokens inputData = Some toks /\
    (forall t z, In t toks -> is_numeric t = true ->
       parseInt t = Fin z -> z <= max_exact ->
       render t = decimal z /\
       decimal_value (render t) = Some z /\
       no_leading_zero (render t) = true /\
       In (render t)
          (if Z.odd z then Result.odd_numbers r else Result.even_numbers r)) /\
    (forall t, is_numeric t = true -> token_value t <= max_exact ->
       parseInt t = Fin (token_value t)) /\
    ~ In "7" (Result.even_numbers r) /\
    (forall pre post, toks = (pre ++ "007" :: post)%list ->
       In "7" (Result.odd_numbers r) /\
       exact_sum toks = exact_sum pre + 7 + exact_sum post /\
       (exact_sum toks <= max_exact ->
        Result.sum r = decimal (exact_sum pre + 7 + exact_sum post))).
Proof.
  intros Hr Hs. destruct (success_inv _ _ Hr Hs) as [toks [Ht ->]].
  exists toks. split; [ exact Ht | ].
  assert (Hall : forall t z, In t toks -> is_numeric t = true ->
            parseInt t = Fin z -> z <= max_exact ->
            render t = decimal z /\
            decimal_value (render t) = Some z /\
            no_leading_zero (render t) = true /\
            In (render t)
               (if Z.odd z
                then Result.odd_numbers (assemble (buckets_of toks) None)
                else Result.even_numbers (assemble (buckets_of toks) None))).
  { intros t z Hin Hn Hp Hlt.
    pose proof (parseInt_nonneg t z Hp) as H0.
    assert (Hrender : render t = decimal z).
    { unfold render. rewrite Hp. apply Number_toString_exact. lia. }
    split; [ exact Hrender | ].
    split; [ rewrite Hrender; apply decimal_value_decimal; exact H0 | ].
    split; [ rewrite Hrender; apply decimal_minimal | ].
    rewrite assemble_odd, assemble_even.
    destruct (Z.odd z) eqn:Eodd.
    - apply in_map, filter_In. split; [ apply filter_In; split; assumption | ].
      unfold odd_token. rewrite Hp, rem2_odd. exact Eodd.
    - apply in_map, filter_In. split; [ apply filter_In; split; assumption | ].
      unfold even_token. rewrite Hp, rem2_even, <- Z.negb_odd, Eodd. reflexivity. }
  split; [ exact Hall | ]. split.
  { intros t Hn Hle. apply parseInt_exact; assumption. }
  split.
  - rewrite assemble_even. intros Hin.
    apply in_map_iff in Hin as [t [Hrender Hin]].
    apply filter_In in Hin as [_ Heven].
    unfold render in Hrender. unfold even_token in Heven.
    rewrite (seven_is_not_even _ Hrender) in Heven. discriminate Heven.
  - intros pre post ->.
    assert (Hin : In "007" (pre ++ "007" :: post)%list).
    { apply in_or_app. right. left. reflexivity. }
    assert (Hsum : exact_sum (pre ++ "007" :: post)%list = exact_sum pre + 7 + exact_sum post).
    { change ("007" :: post) with (["007"] ++ post)%list.
      rewrite !exact_sum_app. change (exact_sum ["007"]) with 7. lia. }
    split.
    + assert (H7 : 7 <= max_exact) by (vm_compute; discriminate).
      destruct (Hall "007" 7 Hin eq_refl eq_refl H7) as [_ [_ [_ H]]]. exact H.
    + split; [ exact Hsum | ].
      intros Hle. rewrite <- Hsum. apply assemble_sum_exact. exact Hle.
Qed.

(** ** Trimming *)

Lemma head_ok_trim_start (l : list ascii) : head_ok (trim_start l) = true.
Proof.
  induction l as [ | c l IH]; simpl; [ reflexivity | ].
  destruct (is_space c) eqn:E; [ exact IH | ]. simpl. rewrite E. reflexivity.
Qed.

Lemma trim_start_fixed (l : list ascii) : head_ok l = true -> trim_start l = l.
Proof.
  destruct l as [ | c l]; simpl; [ reflexivity | ].
  destruct (is_space c); [ discriminate | reflexivity ].
Qed.

Lemma trim_start_suffix (l : list ascii) : exists p, l = (p ++ trim_start l)%list.
Proof.
  induction l as [ | c l [p Hp]]; simpl.
  - exists []. reflexivity.
  - destruct (is_space c).
    + exists (c :: p). simpl. rewrite <- Hp. reflexivity.
    + exists []. reflexivity.
Qed.

Lemma head_ok_app_l (x y : list ascii) : head_ok (x ++ y) = true -> head_ok x = true.
Proof. destruct x; simpl; [ reflexivity | exact (fun H => H) ]. Qed.

Lemma trim_chars (s : string) :
  list_ascii_of_string (trim s) =
  rev (trim_start (rev (trim_start (list_ascii_of_string s)))).
Proof. unfold trim. apply list_ascii_of_string_of_list_ascii. Qed.

(** What [trim] returns begins and ends with no white space. *)
Lemma trim_ends (s : string) :
  head_ok (list_ascii_of_string (trim s)) = true /\
  head_ok (rev (list_ascii_of_string (trim s))) = true.
Proof.
  rewrite trim_chars. set (A := trim_start (list_ascii_of_string s)).
  split.
  - destruct (trim_start_suffix (rev A)) as [p Hp].
    assert (HA : head_ok A = true) by apply head_ok_trim_start.
    rewrite <- (rev_involutive A), Hp, rev_app_distr in HA.
    exact (head_ok_app_l _ _ HA).
  - rewrite rev_involutive. apply head_ok_trim_start.
Qed.

Lemma trim_fixed (s : string) :
  head_ok (list_ascii_of_string s) = true ->
  head_ok (rev (list_ascii_of_string s)) = true ->
  trim s = s.
Proof.
  intros H1 H2. unfold trim.
  rewrite (trim_start_fixed _ H1), (trim_start_fixed _ H2), rev_involutive.
  apply string_of_list_ascii_of_string.
Qed.

Lemma trim_idempotent (s : string) : trim (trim s) = trim s.
Proof. destruct (trim_ends s) as [H1 H2]. apply trim_fixed; assumption. Qed.

Lemma forallb_head_ok (l : list ascii) :
  forallb (fun c => negb (is_space c)) l = true ->
  head_ok l = true /\ head_ok (rev l) = true.
Proof.
  intros H. rewrite forallb_forall in H. split.
  - destruct l as [ | c l]; simpl; [ reflexivity | ]. apply H. left. reflexivity.
  - destruct (rev l) as [ | c l'] eqn:E; simpl; [ reflexivity | ].
    apply H. apply in_rev. rewrite E. left. reflexivity.
Qed.

Lemma no_space_trim (s : string) : no_space s = true -> trim s = s.
Proof.
  intros H. destruct (forallb_head_ok _ H) as [H1 H2]. apply trim_fixed; assumption.
Qed.

Lemma digit_not_space (c : ascii) : is_digit c = true -> is_space c = false.
Proof.
  destruct c as [[|] [|] [|] [|] [|] [|] [|] [|]]; intros H;
    vm_compute in H; try discriminate H; reflexivity.
Qed.

Lemma letter_not_space (c : ascii) : letter_char c = true -> is_space c = false.
Proof.
  destruct c as [[|] [|] [|] [|] [|] [|] [|] [|]]; intros H;
    vm_compute in H; try discriminate H; reflexivity.
Qed.

Lemma numeric_no_space (t : string) : is_numeric t = true -> no_space t = true.
Proof.
  unfold is_numeric, test_digits, no_space.
  destruct (list_ascii_of_string t) as [ | c l]; [ discriminate | ].
  intros H. rewrite forallb_forall in *. intros x Hx.
  rewrite (digit_not_space x (H x Hx)). reflexivity.
Qed.

Lemma letter_no_space (t : string) : test_letter t = true -> no_space t = true.
Proof.
  intros H. destruct (test_letter_inv t H) as [c [-> Hc]].
  unfold no_space. simpl. rewrite (letter_not_space c Hc). reflexivity.
Qed.

Lemma uint_of_string_all_digits (s : string) : forall d,
  NilEmpty.uint_of_string s = Some d ->
  forallb is_digit (list_ascii_of_string s) = true.
Proof.
  induction s as [ | c s IH]; intros d H; simpl in *; [ reflexivity | ].
  destruct (NilEmpty.uint_of_string s) as [d' | ] eqn:E; [ | discriminate H ].
  rewrite (IH d' eq_refl), andb_true_r.
  apply uint_of_char_spec in H.
  destruct H as [[-> _] | [[-> _] | [[-> _] | [[-> _] | [[-> _] |
                [[-> _] | [[-> _] | [[-> _] | [[-> _] | [-> _]]]]]]]]]];
    reflexivity.
Qed.

Lemma decimal_value_numeric (s : string) (z : Z) :
  decimal_value s = Some z -> is_numeric s = true.
Proof.
  unfold decimal_value, NilZero.uint_of_string, is_numeric, test_digits.
  destruct s as [ | c s]; [ discriminate | ].
  destruct (NilEmpty.uint_of_string (String c s)) as [d | ] eqn:E; [ | discriminate ].
  intros _. exact (uint_of_string_all_digits _ _ E).
Qed.

Lemma decimal_numeric (z : Z) : 0 <= z -> is_numeric (decimal z) = true.
Proof.
  intros Hz. eapply decimal_value_numeric. apply decimal_value_decimal. exact Hz.
Qed.

Lemma token_value_decimal (z : Z) : 0 <= z -> token_value (decimal z) = z.
Proof.
  intros Hz. unfold token_value. rewrite decimal_value_decimal by exact Hz. reflexivity.
Qed.

(** ** Results of the two functions *)

Lemma server_result_cases (inputData : value) (r : Result) :
  processArrayData inputData = Returns r ->
  (exists toks, input_tokens inputData = Some toks /\
                r = assemble (buckets_of toks) None) \/
  (input_tokens inputData = None /\ exists e, r = failure e).
Proof.
  intros Hr. destruct (input_tokens inputData) as [toks | ] eqn:E.
  - left. exists toks. rewrite (server_on_tokens _ _ E) in Hr.
    injection Hr as <-. split; reflexivity.
  - right. destruct (server_without_tokens _ E) as [e He].
    rewrite He in Hr. injection Hr as <-. split; [ reflexivity | exists e; reflexivity ].
Qed.

Lemma client_result_cases (inputData : value) (r : Result) :
  processArrayClientSide inputData = Returns r ->
  exists toks, input_tokens inputData = Some toks /\
               r = assemble (buckets_of toks) (Some "client_side_fallback").
Proof.
  intros Hr. destruct (input_tokens inputData) as [toks | ] eqn:E.
  - exists toks. rewrite (client_on_tokens _ _ E) in Hr.
    injection Hr as <-. split; reflexivity.
  - destruct (client_without_tokens _ E) as [e He]. rewrite He in Hr. discriminate Hr.
Qed.

Lemma input_tokens_with_data (items : list value) :
  input_tokens (with_data items) =
  match tokens items with
  | Returns toks => Some toks
  | Throws _ => None
  end.
Proof. reflexivity. Qed.

(** The result depends on the items through their tokens only. *)
Lemma server_tokens_ext (items1 items2 : list value) :
  tokens items1 = tokens items2 ->
  processArrayData (with_data items1) = processArrayData (with_data items2).
Proof.
  intros H. unfold processArrayData, with_data, get_data. simpl.
  rewrite !forEach_classify, H. reflexivity.
Qed.

Lemma client_tokens_ext (items1 items2 : list value) :
  tokens items1 = tokens items2 ->
  processArrayClientSide (with_data items1) = processArrayClientSide (with_data items2).
Proof.
  intros H. unfold processArrayClientSide, with_data, get_data. simpl.
  rewrite !forEach_classify, H. reflexivity.
Qed.

Lemma tokens_map_ext_on (f : value -> value) (items : list value) :
  Forall (fun v => (let* s := ToString (f v) in Returns (trim s)) =
                   (let* s := ToString v in Returns (trim s))) items ->
  tokens (map f items) = tokens items.
Proof.
  induction 1 as [ | v items Hf _ IH]; simpl; [ reflexivity | ].
  rewrite IH.
  destruct (ToString (f v)) as [a | e], (ToString v) as [b | e']; simpl in *;
    try discriminate Hf.
  - injection Hf as ->. reflexivity.
  - injection Hf as ->. reflexivity.
Qed.

Lemma tokens_map_ext (f : value -> value) (items : list value) :
  (forall v, (let* s := ToString (f v) in Returns (trim s)) =
             (let* s := ToString v in Returns (trim s))) ->
  tokens (map f items) = tokens items.
Proof.
  intros Hf. apply tokens_map_ext_on. apply Forall_forall. intros v _. apply Hf.
Qed.

Lemma tokens_VStr (l : list string) : tokens (map VStr l) = Returns (map trim l).
Proof.
  induction l as [ | s l IH]; simpl; [ reflexivity | ]. rewrite IH. reflexivity.
Qed.

Lemma concat_letters (l : list string) :
  Forall single_letter l -> characters (String.concat "" l) = l.
Proof.
  induction 1 as [ | x l Hx Hl IH]; [ reflexivity | ].
  destruct (test_letter_inv x Hx) as [c [-> _]].
  destruct l as [ | y l]; [ reflexivity | ].
  change (String.concat "" (String c EmptyString :: y :: l))
    with (String c (String.concat "" (y :: l))).
  change (characters (String c (String.concat "" (y :: l))))
    with (String c EmptyString :: characters (String.concat "" (y :: l))).
  rewrite IH. reflexivity.
Qed.

(** ** Further properties of the classifier *)

(** X1: [concat_string] is the [alphabets] field joined, and cutting it
    into its characters gives [alphabets] back; so for the server function,
    on success and on failure, and for the client function. *)
Theorem concat_string_round_trip (inputData : value) (r : Result) :
  processArrayData inputData = Returns r \/
  processArrayClientSide inputData = Returns r ->
  Result.concat_string r = String.concat "" (Result.alphabets r) /\
  characters (Result.concat_string r) = Result.alphabets r /\
  String.length (Result.concat_string r) = List.length (Result.alphabets r).
Proof.
  intros H.
  assert (Hr : (exists toks p, r = assemble (buckets_of toks) p) \/ exists e, r = failure e).
  { destruct H as [H | H].
    - destruct (server_result_cases _ _ H) as [[toks [_ ->]] | [_ [e ->]]].
      + left. exists toks, None. reflexivity.
      + right. exists e. reflexivity.
    - destruct (client_result_cases _ _ H) as [toks [_ ->]].
      left. exists toks, (Some "client_side_fallback"). reflexivity. }
  destruct Hr as [[toks [p ->]] | [e ->]]; [ | repeat split ].
  assert (Hc : characters (Result.concat_string (assemble (buckets_of toks) p)) =
               Result.alphabets (assemble (buckets_of toks) p)).
  { change (Result.concat_string (assemble (buckets_of toks) p))
      with (String.concat "" (Result.alphabets (assemble (buckets_of toks) p))).
    apply concat_letters. rewrite assemble_alphabets.
    apply sort_Forall. apply filter_test_letter_Forall. }
  split; [ reflexivity | ]. split; [ exact Hc | ].
  rewrite <- Hc. unfold characters. rewrite length_map.
  clear. generalize (Result.concat_string (assemble (buckets_of toks) p)).
  intros s. induction s as [ | c s IH]; simpl; [ reflexivity | rewrite IH; reflexivity ].
Qed.

Lemma tokens_trimmed (items : list value) (toks : list string) :
  tokens items = Returns toks -> Forall (fun t => trim t = t) toks.
Proof.
  revert toks. induction items as [ | v items IH]; simpl; intros toks H.
  - injection H as <-. constructor.
  - destruct (ToString v) as [s | e]; simpl in H; [ | discriminate H ].
    destruct (tokens items) as [ts | e]; simpl in H; [ | discriminate H ].
    injection H as <-. constructor; [ apply trim_idempotent | apply IH; reflexivity ].
Qed.

Lemma input_tokens_trimmed (inputData : value) (toks : list string) :
  input_tokens inputData = Some toks -> Forall (fun t => trim t = t) toks.
Proof.
  unfold input_tokens. intros H.
  destruct (get_data inputData) as [d | e]; [ | discriminate H ].
  destruct (js_or d (VArr [])) as [ | | b | n | f | s | items | props]; try discriminate H.
  destruct (tokens items) as [ts | e] eqn:E; [ | discriminate H ].
  injection H as <-. exact (tokens_trimmed _ _ E).
Qed.

Lemma rendered_numbers_shape (toks l : list string) :
  exact_sum toks <= max_exact ->
  (forall t, In t l -> In t toks /\ is_numeric t = true) ->
  Forall (fun s => is_numeric s = true /\ no_leading_zero s = true) (map render l).
Proof.
  intros Hle Hl. apply Forall_forall. intros s Hs.
  apply in_map_iff in Hs as [t [<- Ht]].
  destruct (Hl t Ht) as [Hin Hn].
  destruct (render_exact toks t Hle Hin Hn) as [-> _].
  split; [ apply decimal_numeric, token_value_nonneg | apply decimal_minimal ].
Qed.

(** X2: what the four array fields hold.  Every entry of [alphabets] is a
    single ASCII letter; every entry of [special_characters] is a non-empty
    string that is neither all digits nor a single letter and has no white
    space at either end; and when the exact sum of the numeric tokens is at
    most 2^53, every entry of [odd_numbers] and [even_numbers] is a string
    of digits without a leading zero.  Hence, under that bound, no string
    is in two of the three groups. *)
Theorem output_fields_shape (inputData : value) (r : Result) (toks : list string) :
  processArrayData inputData = Returns r ->
  input_tokens inputData = Some toks ->
  Forall (fun t => test_letter t = true) (Result.alphabets r) /\
  Forall (fun t => is_special t = true /\ trim t = t) (Result.special_characters r) /\
  (exact_sum toks <= max_exact ->
   Forall (fun s => is_numeric s = true /\ no_leading_zero s = true)
          (Result.odd_numbers r ++ Result.even_numbers r) /\
   forall s,
     ~ (In s (Result.odd_numbers r ++ Result.even_numbers r) /\ In s (Result.alphabets r)) /\
     ~ (In s (Result.odd_numbers r ++ Result.even_numbers r) /\
        In s (Result.special_characters r)) /\
     ~ (In s (Result.alphabets r) /\ In s (Result.special_characters r))).
Proof.
  intros Hr Ht. rewrite (server_on_tokens _ _ Ht) in Hr. injection Hr as <-.
  assert (Ha : Forall (fun t => test_letter t = true)
                 (Result.alphabets (assemble (buckets_of toks) None))).
  { rewrite assemble_alphabets. apply sort_Forall. apply filter_test_letter_Forall. }
  assert (Hs : Forall (fun t => is_special t = true /\ trim t = t)
                 (Result.special_characters (assemble (buckets_of toks) None))).
  { change (Result.special_characters (assemble (buckets_of toks) None))
      with (filter is_special toks).
    pose proof (input_tokens_trimmed _ _ Ht) as Htrim.
    rewrite Forall_forall in *. intros t Hin. apply filter_In in Hin as [Hin Hsp].
    split; [ exact Hsp | apply Htrim; exact Hin ]. }
  split; [ exact Ha | ]. split; [ exact Hs | ].
  intros Hle.
  assert (Hn : Forall (fun s => is_numeric s = true /\ no_leading_zero s = true)
                 (Result.odd_numbers (assemble (buckets_of toks) None) ++
                  Result.even_numbers (assemble (buckets_of toks) None))).
  { rewrite assemble_odd, assemble_even. apply Forall_app.
    split; apply (rendered_numbers_shape toks); try exact Hle;
      intros t H; apply filter_In in H as [H _]; apply filter_In in H; exact H. }
  split; [ exact Hn | ].
  rewrite Forall_forall in Ha, Hs, Hn.
  intros s. repeat split.
  - intros [H1 H2]. destruct (Hn s H1) as [Hd _]. specialize (Ha s H2).
    unfold is_numeric in Hd. rewrite (letter_not_digits s Ha) in Hd. discriminate Hd.
  - intros [H1 H2]. destruct (Hn s H1) as [Hd _]. destruct (Hs s H2) as [Hsp _].
    unfold is_special, is_numeric in *. rewrite Hd in Hsp. discriminate Hsp.
  - intros [H1 H2]. specialize (Ha s H1). destruct (Hs s H2) as [Hsp _].
    unfold is_special in Hsp. rewrite Ha in Hsp.
    rewrite andb_false_r in Hsp. discriminate Hsp.
Qed.

(** X3: white space around a string item does not matter: removing it
    from every string item of an array changes nothing in what either
    function returns. *)
Theorem trimming_items_changes_nothing (items : list value) :
  processArrayData (with_data (map trim_item items)) =
    processArrayData (with_data items) /\
  processArrayClientSide (with_data (map trim_item items)) =
    processArrayClientSide (with_data items).
Proof.
  assert (H : tokens (map trim_item items) = tokens items).
  { apply tokens_map_ext. intros v. destruct v; try reflexivity.
    simpl. rewrite trim_idempotent. reflexivity. }
  split; [ apply server_tokens_ext | apply client_tokens_ext ]; exact H.
Qed.

(** X4: an integer from 0 to 2^53 may be given as a number or as a string
    of its digits: replacing such number items by strings changes nothing
    in what either function returns. *)
Theorem numbers_or_digit_strings (items : list value) :
  processArrayData (with_data (map number_as_string items)) =
    processArrayData (with_data items) /\
  processArrayClientSide (with_data (map number_as_string items)) =
    processArrayClientSide (with_data items).
Proof.
  assert (H : tokens (map number_as_string items) = tokens items).
  { apply tokens_map_ext. intros v. destruct v as [ | | b | n | f | s | l | props];
      try reflexivity.
    destruct n as [z | | | ]; try reflexivity. unfold number_as_string.
    destruct ((0 <=? z) && (z <=? max_exact)) eqn:E; [ | reflexivity ].
    apply andb_true_iff in E as [E1 E2]. apply Z.leb_le in E1. apply Z.leb_le in E2.
    unfold ToString. cbn [ToString_at]. rewrite Number_toString_exact by lia.
    reflexivity. }
  split; [ apply server_tokens_ext | apply client_tokens_ext ]; exact H.
Qed.

(** X5: an item that is an array of one element is classified as that
    element ([String] prints such an array as its element): putting every
    item other than [null] and [undefined] in an array of its own changes
    nothing in what either function returns, as long as the stack has room
    for one more array around each item. *)
Theorem singleton_arrays_are_transparent (items : list value) :
  Forall (fun v => (array_depth v < stack_depth)%nat) items ->
  processArrayData (with_data (map wrap_item items)) =
    processArrayData (with_data items) /\
  processArrayClientSide (with_data (map wrap_item items)) =
    processArrayClientSide (with_data items).
Proof.
  intros Hd.
  assert (H : tokens (map wrap_item items) = tokens items).
  { apply tokens_map_ext_on. apply Forall_forall. intros v Hv.
    rewrite Forall_forall in Hd. specialize (Hd v Hv). unfold ToString.
    destruct stack_depth as [ | budget]; [ lia | ].
    destruct v; try reflexivity; unfold wrap_item; cbn [prints];
      rewrite ToString_at_single; cbn [element_string];
      rewrite (ToString_at_enough _ budget (S budget)) by lia; reflexivity. }
  split; [ apply server_tokens_ext | apply client_tokens_ext ]; exact H.
Qed.

(** ** Failures *)

(** X6: what a failure record is and where it comes from.  It has the four
    array fields empty, sum ["0"] and [concat_string] [""], and its error is
    one of five: the input is [undefined] or [null]; or [data] is truthy
    and not an array; or [data] is an array with an item that [String]
    cannot convert (an object with an own property [toString], possibly
    inside arrays); or [data] is an array with an item whose arrays are
    nested deeper than the stack has room for.  The first two and the last
    two messages are the engine's. *)
Theorem failure_causes (inputData : value) (r : Result) :
  processArrayData inputData = Returns r ->
  Result.is_success r = false ->
  (Result.odd_numbers r = [] /\ Result.even_numbers r = [] /\
   Result.alphabets r = [] /\ Result.special_characters r = [] /\
   Result.sum r = "0" /\ Result.concat_string r = "") /\
  ((inputData = VUndefined /\
    Result.error r = Some (wording (ReadOfUndefined "data"))) \/
   (inputData = VNull /\
    Result.error r = Some (wording (ReadOfNull "data"))) \/
   (exists d, get_data inputData = Returns d /\ truthy d = true /\ isArray d = false /\
              Result.error r = Some "Input data must be an array") \/
   (exists items, get_data inputData = Returns (VArr items) /\
                  tokens items = Throws (fault_exn NotPrimitive) /\
                  Result.error r = Some (wording NotPrimitive)) \/
   (exists items, get_data inputData = Returns (VArr items) /\
                  tokens items = Throws (fault_exn StackExhausted) /\
                  Exists (fun v => (stack_depth < array_depth v)%nat) items /\
                  Result.error r = Some (wording StackExhausted))).
Proof.
  intros Hr Hs. unfold processArrayData in Hr.
  destruct (get_data inputData) as [d | e] eqn:Eg.
  - unfold js_or in Hr. simpl in Hr. destruct (truthy d) eqn:Et.
    + destruct d as [ | | b | n | f | s | items | props];
        try (injection Hr as <-; split; [ repeat split | ];
             right; right; left; eexists; repeat split; exact Et).
      rewrite forEach_classify in Hr.
      destruct (tokens items) as [toks | e] eqn:Etok; simpl in Hr.
      * injection Hr as <-. discriminate Hs.
      * injection Hr as <-. split; [ repeat split | ].
        destruct (tokens_throws _ _ Etok) as [-> | [-> Hd]].
        -- right; right; right; left. exists items.
           split; [ reflexivity | ]. split; [ exact Etok | reflexivity ].
        -- right; right; right; right. exists items.
           split; [ reflexivity | ]. split; [ exact Etok | ].
           split; [ exact Hd | reflexivity ].
    + simpl in Hr. injection Hr as <-. discriminate Hs.
  - simpl in Hr. injection Hr as <-. split; [ repeat split | ].
    destruct inputData as [ | | b | n | f | s | items | props]; try discriminate Eg.
    + left. injection Eg as <-. split; reflexivity.
    + right; left. injection Eg as <-. split; reflexivity.
    + simpl in Eg. destruct (own_property "data" props); discriminate Eg.
Qed.

(** ** Arrays put end to end *)

Lemma tokens_app (items1 items2 : list value) :
  tokens (items1 ++ items2) =
  let* t1 := tokens items1 in let* t2 := tokens items2 in Returns (t1 ++ t2)%list.
Proof.
  induction items1 as [ | v items1 IH]; simpl.
  - destruct (tokens items2); reflexivity.
  - destruct (ToString v) as [s | e]; simpl; [ | reflexivity ].
    rewrite IH. destruct (tokens items1) as [t1 | e]; simpl; [ | reflexivity ].
    destruct (tokens items2); reflexivity.
Qed.

Lemma success_with_data (items : list value) (r : Result) :
  processArrayData (with_data items) = Returns r ->
  Result.is_success r = true ->
  exists toks, tokens items = Returns toks /\ r = assemble (buckets_of toks) None.
Proof.
  intros Hr Hs. destruct (success_inv _ _ Hr Hs) as [toks [Ht ->]].
  exists toks. rewrite input_tokens_with_data in Ht.
  destruct (tokens items) as [ts | e]; [ | discriminate Ht ].
  injection Ht as ->. split; reflexivity.
Qed.

(** X7: processing two arrays put end to end.  When both arrays are
    processed with success, so is their concatenation; its [odd_numbers],
    [even_numbers] and [special_characters] are those of the first array
    followed by those of the second, its [alphabets] is the two [alphabets]
    sorted together, and, when the exact sums of the two arrays add up to
    at most 2^53, its [sum] is the sum of the two [sum]s. *)
Theorem concatenated_arrays (items1 items2 : list value) (r1 r2 : Result) :
  processArrayData (with_data items1) = Returns r1 ->
  Result.is_success r1 = true ->
  processArrayData (with_data items2) = Returns r2 ->
  Result.is_success r2 = true ->
  exists r,
    processArrayData (with_data (items1 ++ items2)) = Returns r /\
    Result.is_success r = true /\
    Result.odd_numbers r = (Result.odd_numbers r1 ++ Result.odd_numbers r2)%list /\
    Result.even_numbers r = (Result.even_numbers r1 ++ Result.even_numbers r2)%list /\
    Result.special_characters r =
      (Result.special_characters r1 ++ Result.special_characters r2)%list /\
    Result.alphabets r =
      sort compare_alphabets (Result.alphabets r1 ++ Result.alphabets r2) /\
    exists toks1 toks2,
      input_tokens (with_data items1) = Some toks1 /\
      input_tokens (with_data items2) = Some toks2 /\
      (exact_sum toks1 + exact_sum toks2 <= max_exact ->
       decimal_value (Result.sum r1) = Some (exact_sum toks1) /\
       decimal_value (Result.sum r2) = Some (exact_sum toks2) /\
       decimal_value (Result.sum r) = Some (exact_sum toks1 + exact_sum toks2)).
Proof.
  intros H1 S1 H2 S2.
  destruct (success_with_data _ _ H1 S1) as [toks1 [T1 ->]].
  destruct (success_with_data _ _ H2 S2) as [toks2 [T2 ->]].
  assert (T : input_tokens (with_data (items1 ++ items2)) = Some (toks1 ++ toks2)%list).
  { rewrite input_tokens_with_data, tokens_app, T1, T2. reflexivity. }
  exists (assemble (buckets_of (toks1 ++ toks2)) None).
  split; [ apply server_on_tokens; exact T | ]. split; [ reflexivity | ].
  split; [ rewrite !assemble_odd, !filter_app, map_app; reflexivity | ].
  split; [ rewrite !assemble_even, !filter_app, map_app; reflexivity | ].
  split; [ simpl; apply filter_app | ]. split.
  - rewrite !assemble_alphabets, filter_app.
    apply (sort_permutation compare_alphabets single_letter
             compare_total compare_trans compare_antisym).
    + apply Permutation_sym, Permutation_app; apply sort_perm.
    + apply Forall_app. split; apply filter_test_letter_Forall.
  - exists toks1, toks2.
    split; [ rewrite input_tokens_with_data, T1; reflexivity | ].
    split; [ rewrite input_tokens_with_data, T2; reflexivity | ].
    intros Hle.
    pose proof (sum_list_nonneg _ (token_values_nonneg (filter is_numeric toks1))) as N1.
    pose proof (sum_list_nonneg _ (token_values_nonneg (filter is_numeric toks2))) as N2.
    rewrite <- !exact_sum_sum_list in N1, N2.
    rewrite !assemble_sum_exact by (rewrite ?exact_sum_app; lia).
    rewrite exact_sum_app, !decimal_value_decimal by lia.
    repeat split.
Qed.

(** ** The output as an input *)

Lemma filter_all {A : Type} (f : A -> bool) (l : list A) :
  Forall (fun x => f x = true) l -> filter f l = l.
Proof.
  induction 1 as [ | x l Hx Hl IH]; simpl; [ reflexivity | ].
  rewrite Hx, IH. reflexivity.
Qed.

Lemma filter_none {A : Type} (f : A -> bool) (l : list A) :
  Forall (fun x => f x = false) l -> filter f l = [].
Proof.
  induction 1 as [ | x l Hx Hl IH]; simpl; [ reflexivity | ].
  rewrite Hx, IH. reflexivity.
Qed.

Lemma filter_three {A : Type} (f : A -> bool) (a b c : list A) :
  filter f (a ++ b ++ c) = (filter f a ++ filter f b ++ filter f c)%list.
Proof. rewrite !filter_app. reflexivity. Qed.

Lemma assemble_ext (st st' : buckets) (p : option string) :
  Result.odd_numbers (assemble st p) = Result.odd_numbers (assemble st' p) ->
  Result.even_numbers (assemble st p) = Result.even_numbers (assemble st' p) ->
  Result.alphabets (assemble st p) = Result.alphabets (assemble st' p) ->
  Result.special_characters (assemble st p) = Result.special_characters (assemble st' p) ->
  Result.sum (assemble st p) = Result.sum (assemble st' p) ->
  assemble st p = assemble st' p.
Proof.
  unfold assemble. cbn [Result.odd_numbers Result.even_numbers Result.alphabets
                        Result.special_characters Result.sum].
  intros -> -> -> -> ->. reflexivity.
Qed.

(** Below the bound, a rendered numeric token is a numeric token of the
    same value, which renders as itself. *)
Lemma render_render (toks : list string) (t : string) :
  exact_sum toks <= max_exact -> In t toks -> is_numeric t = true ->
  is_numeric (render t) = true /\
  token_value (render t) = token_value t /\
  render (render t) = render t /\
  odd_token (render t) = odd_token t /\
  even_token (render t) = even_token t.
Proof.
  intros Hle Hin Hn.
  destruct (render_exact toks t Hle Hin Hn) as [Hr [Ho He]].
  destruct (token_exact toks t Hle Hin Hn) as [_ Hb].
  pose proof max_exact_lt as Hm.
  assert (Hd : is_numeric (decimal (token_value t)) = true)
    by (apply decimal_numeric; lia).
  assert (Hv : token_value (decimal (token_value t)) = token_value t)
    by (apply token_value_decimal; lia).
  assert (Hp : parseInt (decimal (token_value t)) = Fin (token_value t)).
  { rewrite <- Hv at 2. apply parseInt_exact; [ exact Hd | rewrite Hv; lia ]. }
  rewrite Hr. split; [ exact Hd | ]. split; [ exact Hv | ].
  unfold render, odd_token, even_token in *. rewrite Hp.
  split; [ apply Number_toString_exact; lia | ].
  split; [ rewrite rem2_odd; symmetry; exact Ho | rewrite rem2_even; symmetry; exact He ].
Qed.

(** X8: the output is a fixed point.  When the exact sum of the numeric
    tokens is at most 2^53, giving the strings of a success record back as
    an array ([odd_numbers], [even_numbers], [alphabets] and
    [special_characters], one after the other) returns the same record. *)
Theorem reprocessing_the_output (inputData : value) (r : Result) (toks : list string) :
  processArrayData inputData = Returns r ->
  input_tokens inputData = Some toks ->
  exact_sum toks <= max_exact ->
  processArrayData (with_data (output_items r)) = Returns r.
Proof.
  intros Hr Ht Hle.
  destruct (output_fields_shape _ _ _ Hr Ht) as [Ha [Hs Hn]].
  destruct (Hn Hle) as [Hnum _]. clear Hn.
  rewrite (server_on_tokens _ _ Ht) in Hr. injection Hr as <-.
  set (r := assemble (buckets_of toks) None) in *.
  set (N := filter is_numeric toks).
  assert (HN : forall f t, In t (filter f N) -> In t toks /\ is_numeric t = true).
  { intros f t H. apply filter_In in H as [H _]. apply filter_In in H. exact H. }
  set (out := (Result.odd_numbers r ++ Result.even_numbers r ++
               Result.alphabets r ++ Result.special_characters r)%list).
  (* the output strings are their own tokens *)
  assert (Htrim : map trim out = out).
  { rewrite <- (map_id out) at 2. apply map_ext_in. intros t Hin.
    unfold out in Hin. rewrite app_assoc in Hin.
    apply in_app_or in Hin as [Hin | Hin].
    - rewrite Forall_forall in Hnum. destruct (Hnum t Hin) as [Hd _].
      apply no_space_trim, numeric_no_space, Hd.
    - apply in_app_or in Hin as [Hin | Hin].
      + rewrite Forall_forall in Ha. apply no_space_trim, letter_no_space, Ha, Hin.
      + rewrite Forall_forall in Hs. apply (Hs t Hin). }
  assert (Hout : input_tokens (with_data (output_items r)) = Some out).
  { rewrite input_tokens_with_data. unfold output_items. fold out.
    rewrite tokens_VStr, Htrim. reflexivity. }
  rewrite (server_on_tokens _ _ Hout). f_equal.
  (* how the output strings are classified *)
  set (NUM := (Result.odd_numbers r ++ Result.even_numbers r)%list) in *.
  assert (Eout : out = (NUM ++ Result.alphabets r ++ Result.special_characters r)%list).
  { unfold out, NUM. rewrite <- app_assoc. reflexivity. }
  assert (Fnum : filter is_numeric out = NUM).
  { rewrite Eout, filter_three.
    rewrite (filter_all _ _ (Forall_impl _ (fun s H => proj1 H) Hnum)).
    rewrite (filter_none is_numeric (Result.alphabets r)).
    - rewrite (filter_none is_numeric (Result.special_characters r)).
      + rewrite !app_nil_r. reflexivity.
      + eapply Forall_impl; [ | exact Hs ]. intros t [Hsp _].
        unfold is_special, is_numeric in *.
        destruct (test_digits t); [ discriminate Hsp | reflexivity ].
    - eapply Forall_impl; [ | exact Ha ]. intros t Hl. apply letter_not_digits. exact Hl. }
  assert (Flet : filter test_letter out = Result.alphabets r).
  { rewrite Eout, filter_three.
    rewrite (filter_none test_letter NUM).
    - rewrite (filter_all _ _ Ha).
      rewrite (filter_none test_letter (Result.special_characters r)).
      + rewrite app_nil_r. reflexivity.
      + eapply Forall_impl; [ | exact Hs ]. intros t [Hsp _].
        unfold is_special in Hsp. destruct (test_letter t); [ | reflexivity ].
        rewrite andb_false_r in Hsp. discriminate Hsp.
    - eapply Forall_impl; [ | exact Hnum ]. intros t [Hd _].
      destruct (test_letter t) eqn:El; [ | reflexivity ].
      unfold is_numeric in Hd. rewrite (letter_not_digits t El) in Hd. discriminate Hd. }
  assert (Fsp : filter is_special out = Result.special_characters r).
  { rewrite Eout, filter_three.
    rewrite (filter_none is_special NUM).
    - rewrite (filter_none is_special (Result.alphabets r)).
      + rewrite (filter_all is_special (Result.special_characters r)); [ reflexivity | ].
        eapply Forall_impl; [ | exact Hs ]. intros t [Hsp _]. exact Hsp.
      + eapply Forall_impl; [ | exact Ha ]. intros t Hl. simpl in Hl.
        unfold is_special. rewrite Hl. simpl. rewrite andb_false_r. reflexivity.
    - eapply Forall_impl; [ | exact Hnum ]. intros t [Hd _].
      unfold is_special, is_numeric in *. rewrite Hd. reflexivity. }
  unfold NUM in Fnum. clear Eout.
  (* the numeric part, token by token *)
  assert (Hodd : Result.odd_numbers r = map render (filter odd_token N)) by apply assemble_odd.
  assert (Heven : Result.even_numbers r = map render (filter even_token N)) by apply assemble_even.
  assert (Hrr : forall f, map render (map render (filter f N)) = map render (filter f N)).
  { intros f. rewrite map_map. apply map_ext_in. intros t Hin.
    destruct (HN f t Hin) as [H1 H2]. apply (render_render toks t Hle H1 H2). }
  assert (Hkeep : forall f g, (forall t, In t toks -> is_numeric t = true ->
                                 g (render t) = f t) ->
                   filter g (map render (filter f N)) = map render (filter f N)).
  { intros f g Hg. apply filter_all. apply Forall_forall. intros s Hin.
    apply in_map_iff in Hin as [t [<- Hin]].
    destruct (HN f t Hin) as [H1 H2]. rewrite (Hg t H1 H2).
    apply filter_In in Hin as [_ Hf]. exact Hf. }
  assert (Hdrop : forall f g, (forall t, In t toks -> is_numeric t = true ->
                                 g (render t) = negb (f t)) ->
                   filter g (map render (filter f N)) = []).
  { intros f g Hg. apply filter_none. apply Forall_forall. intros s Hin.
    apply in_map_iff in Hin as [t [<- Hin]].
    destruct (HN f t Hin) as [H1 H2]. rewrite (Hg t H1 H2).
    apply filter_In in Hin as [_ Hf]. rewrite Hf. reflexivity. }
  assert (Hoe : forall t, In t toks -> is_numeric t = true ->
                  odd_token (render t) = odd_token t /\
                  even_token (render t) = even_token t).
  { intros t H1 H2. apply (render_render toks t Hle H1 H2). }
  assert (Hneg : forall t, even_token t = negb (odd_token t)).
  { intros t. unfold even_token, odd_token. apply odd_or_even. }
  assert (Hsum : exact_sum out = exact_sum toks).
  { rewrite !exact_sum_sum_list, Fnum, Hodd, Heven, map_app, !map_map, sum_list_app.
    fold N. rewrite <- (sum_list_split odd_token even_token N Hneg). f_equal.
    - f_equal. apply map_ext_in. intros t Hin. destruct (HN _ t Hin) as [H1 H2].
      apply (render_render toks t Hle H1 H2).
    - f_equal. apply map_ext_in. intros t Hin. destruct (HN _ t Hin) as [H1 H2].
      apply (render_render toks t Hle H1 H2). }
  apply assemble_ext; fold r.
  - rewrite (assemble_odd out), Fnum, Hodd, Heven, filter_app.
    rewrite (Hkeep odd_token odd_token) by (intros t H1 H2; apply (Hoe t H1 H2)).
    rewrite (Hdrop even_token odd_token).
    + rewrite app_nil_r. apply Hrr.
    + intros t H1 H2. destruct (Hoe t H1 H2) as [-> _]. rewrite Hneg.
      rewrite negb_involutive. reflexivity.
  - rewrite (assemble_even out), Fnum, Hodd, Heven, filter_app.
    rewrite (Hkeep even_token even_token) by (intros t H1 H2; apply (Hoe t H1 H2)).
    rewrite (Hdrop odd_token even_token).
    + apply Hrr.
    + intros t H1 H2. destruct (Hoe t H1 H2) as [_ ->]. apply Hneg.
  - rewrite (assemble_alphabets out), Flet. unfold r. rewrite assemble_alphabets.
    apply (sort_idempotent compare_alphabets single_letter
             compare_total compare_trans compare_antisym).
    apply filter_test_letter_Forall.
  - exact Fsp.
  - rewrite (assemble_sum_exact out) by (rewrite Hsum; exact Hle).
    unfold r. rewrite (assemble_sum_exact toks None Hle), Hsum. reflexivity.
Qed.

(** ** The route *)




(** ** The submit handler *)

(** X10: when [handleProcessArray] displays a result of the fallback, the
    text parsed to an input with an array as [data], the backend did not
    answer, and the result displayed is the success record the server
    function returns for that input, with [processed_with] added. *)
Theorem fallback_matches_server
    (JSON_parse : string -> option value) (fetch_process : value -> option value)
    (raw : string) (result : Result) :
  handleProcessArray JSON_parse fetch_process raw = DisplayedFallback result ->
  exists inputData items r,
    JSON_parse (trim raw) = Some inputData /\
    get_data inputData = Returns (VArr items) /\
    fetch_process inputData = None /\
    processArrayData inputData = Returns r /\
    Result.is_success r = true /\
    result = with_processed r (Some "client_side_fallback").
Proof.
  unfold handleProcessArray.
  destruct (String.length (trim raw) =? 0)%nat; [ discriminate | ].
  destruct (JSON_parse (trim raw)) as [inputData | ] eqn:Ep; [ | discriminate ].
  destruct (hasOwnProperty_data inputData) as [has | e]; [ | discriminate ].
  simpl. destruct has; [ | discriminate ]. simpl.
  destruct (get_data inputData) as [d | e] eqn:Eg; [ | discriminate ]. simpl.
  destruct d as [ | | b | n | f | s | items | props]; try discriminate. simpl.
  destruct (fetch_process inputData) as [res | ] eqn:Ef;
    [ destruct (displayResult res); discriminate | ].
  destruct (processArrayClientSide inputData) as [rc | e] eqn:Ec; [ | discriminate ].
  cbn [bind]. destruct (displayResult (Result_object rc)); [ | discriminate ].
  cbn [bind]. intros [= <-].
  destruct (client_result_cases _ _ Ec) as [toks [Ht ->]].
  exists inputData, items, (assemble (buckets_of toks) None).
  split; [ reflexivity | ]. split; [ exact Eg | ]. split; [ exact Ef | ].
  split; [ apply server_on_tokens; exact Ht | ]. split; reflexivity.
Qed.



(** X12: the page refuses inputs the server accepts.  For a parsed object
    (with no own property [hasOwnProperty]) whose [data] is absent, or is
    [null], [false], [0], [NaN] or the empty string, [handleProcessArray]
    shows an error and sends nothing, whatever the backend, while
    [processArrayData] returns the success record of the empty sequence. *)
Theorem page_stricter_than_server
    (JSON_parse : string -> option value) (fetch_process : value -> option value)
    (raw : string) (props : list (string * value)) :
  (String.length (trim raw) =? 0)%nat = false ->
  JSON_parse (trim raw) = Some (VObj props) ->
  own_property "hasOwnProperty" props = None ->
  (own_property "data" props = None ->
   handleProcessArray JSON_parse fetch_process raw = ErrorShown msg_no_data_field /\
   processArrayData (VObj props) = Returns empty_success) /\
  (forall d, own_property "data" props = Some d ->
     In d [VNull; VBool false; VNum (Fin 0); VNum NaN; VStr ""] ->
     handleProcessArray JSON_parse fetch_process raw = ErrorShown msg_data_not_array /\
     processArrayData (VObj props) = Returns empty_success).
Proof.
  intros Hlen Hparse Hown. split.
  - intros Hd. split.
    + unfold handleProcessArray, hasOwnProperty_data.
      rewrite Hlen, Hparse, Hown, Hd. reflexivity.
    + unfold processArrayData, get_data. rewrite Hd. reflexivity.
  - intros d Hd Hin. split.
    + unfold handleProcessArray, hasOwnProperty_data, get_data.
      rewrite Hlen, Hparse, Hown, Hd. simpl in Hin |- *.
      destruct Hin as [<- | [<- | [<- | [<- | [<- | []]]]]]; reflexivity.
    + unfold processArrayData, get_data. rewrite Hd. simpl in Hin.
      destruct Hin as [<- | [<- | [<- | [<- | [<- | []]]]]]; reflexivity.
Qed.

(** ** The summary *)

Lemma decimal_nonempty (z : Z) : (String.length (decimal z) =? 0)%nat = false.
Proof.
  pose proof (decimal_minimal z) as H.
  destruct (decimal z); [ discriminate H | reflexivity ].
Qed.

(** [String(n)] is never the empty string. *)
Lemma Number_toString_nonempty (n : number) :
  (String.length (Number_toString n) =? 0)%nat = false.
Proof.
  destruct n as [z | | | ]; try reflexivity.
  unfold Number_toString.
  destruct (z <? 0); [ reflexivity | ].
  unfold magnitude_toString. destruct (shortest_digits z 1 17) as [s e].
  destruct (s * 10 ^ e <? 10 ^ 21); [ apply decimal_nonempty | ].
  unfold exponent_notation.
  destruct (strip_zeros (S (Z.to_nat (Z.log2 s))) s e) as [s' e'].
  pose proof (decimal_nonempty s') as H.
  destruct (decimal s') as [ | c [ | c' rest]]; [ discriminate H | reflexivity | reflexivity ].
Qed.

Lemma numbers_count (toks : list string) (p : option string) :
  (List.length (Result.odd_numbers (assemble (buckets_of toks) p)) +
   List.length (Result.even_numbers (assemble (buckets_of toks) p)) =
   List.length (filter is_numeric toks))%nat.
Proof.
  rewrite assemble_odd, assemble_even, !length_map, <- length_app.
  apply Permutation_length. apply filter_split_perm.
  intros t. unfold even_token, odd_token. apply odd_or_even.
Qed.

Lemma alphabets_count (toks : list string) (p : option string) :
  List.length (Result.alphabets (assemble (buckets_of toks) p)) =
  List.length (filter test_letter toks).
Proof. rewrite assemble_alphabets. apply Permutation_length, sort_perm. Qed.

(** X13: what [displayResult] prints for a record of either function.
    The sum printed is the [sum] field itself, the default ['0'] never
    being needed; on success the number of numbers, of alphabets and of
    special characters printed add up to the number of non-empty tokens of
    the input; on failure the three counts are 0 and the sum is ["0"]. *)
Theorem summary_of_a_result (inputData : value) (r : Result) :
  processArrayData inputData = Returns r \/
  processArrayClientSide inputData = Returns r ->
  shown_sum (displayResult_summary r) = Result.sum r /\
  shown_success (displayResult_summary r) = Result.is_success r /\
  (forall toks, input_tokens inputData = Some toks ->
     (shown_total (displayResult_summary r) + shown_alphabets (displayResult_summary r) +
      shown_special (displayResult_summary r) =
      List.length (filter (fun t => negb (is_empty t)) toks))%nat /\
     shown_odd (displayResult_summary r) =
       List.length (filter odd_token (filter is_numeric toks)) /\
     shown_even (displayResult_summary r) =
       List.length (filter even_token (filter is_numeric toks))) /\
  (Result.is_success r = false ->
   shown_total (displayResult_summary r) = 0%nat /\
   shown_alphabets (displayResult_summary r) = 0%nat /\
   shown_special (displayResult_summary r) = 0%nat /\
   shown_sum (displayResult_summary r) = "0").
Proof.
  intros H.
  assert (Hr : (exists toks p, input_tokens inputData = Some toks /\
                               r = assemble (buckets_of toks) p) \/
               (input_tokens inputData = None /\ exists e, r = failure e)).
  { destruct H as [H | H].
    - destruct (server_result_cases _ _ H) as [[toks [Ht ->]] | [Hn [e ->]]].
      + left. exists toks, None. split; [ exact Ht | reflexivity ].
      + right. split; [ exact Hn | exists e; reflexivity ].
    - destruct (client_result_cases _ _ H) as [toks [Ht ->]].
      left. exists toks, (Some "client_side_fallback"). split; [ exact Ht | reflexivity ]. }
  destruct Hr as [[toks [p [Ht ->]]] | [Hn [e ->]]].
  - split.
    + unfold displayResult_summary. cbn [shown_sum].
      rewrite assemble_sum, Number_toString_nonempty. reflexivity.
    + split; [ reflexivity | ]. split; [ | discriminate ].
      intros toks' Ht'. rewrite Ht in Ht'. injection Ht' as <-.
      unfold displayResult_summary.
      cbn [shown_total shown_alphabets shown_special shown_odd shown_even].
      split; [ | split ].
      * rewrite numbers_count, alphabets_count.
        change (Result.special_characters (assemble (buckets_of toks) p))
          with (filter is_special toks).
        apply category_count.
      * rewrite assemble_odd. apply length_map.
      * rewrite assemble_even. apply length_map.
  - split; [ reflexivity | ]. split; [ reflexivity | ].
    split; [ intros toks Ht; rewrite Hn in Ht; discriminate Ht | ].
    intros _. repeat split.
Qed.

(** ** The assertion helpers *)

(** X14: the counters of test.js.  Each assertion adds one to exactly one
    counter: after a run [testsPassed] has grown by the number of
    assertions that hold and [testsFailed] by the number of the others, so
    their sum has grown by the number of assertions; and, the counters
    starting at 0, the exit code is 0 exactly when every assertion
    holds. *)
Theorem assertion_counters (JSON_stringify : value -> string)
    (l : list assertion) (c : counters) :
  testsPassed (run_assertions JSON_stringify l c) =
    (testsPassed c + List.length (filter (holds JSON_stringify) l))%nat /\
  testsFailed (run_assertions JSON_stringify l c) =
    (testsFailed c +
     List.length (filter (fun a => negb (holds JSON_stringify a)) l))%nat /\
  (testsPassed (run_assertions JSON_stringify l c) +
   testsFailed (run_assertions JSON_stringify l c) =
   testsPassed c + testsFailed c + List.length l)%nat /\
  (testsFailed c = 0%nat ->
   (exit_code (run_assertions JSON_stringify l c) = 0 <->
    forallb (holds JSON_stringify) l = true)).
Proof.
  assert (H : testsPassed (run_assertions JSON_stringify l c) =
                (testsPassed c + List.length (filter (holds JSON_stringify) l))%nat /\
              testsFailed (run_assertions JSON_stringify l c) =
                (testsFailed c +
                 List.length (filter (fun a => negb (holds JSON_stringify a)) l))%nat).
  { revert c. unfold run_assertions.
    induction l as [ | a l IH]; intros c; simpl; [ split; lia | ].
    destruct (IH (run_assertion JSON_stringify c a)) as [-> ->].
    destruct a as [condition | actual expected];
      unfold run_assertion, assertTrue, assertEqual, holds.
    - destruct condition; simpl; split; lia.
    - destruct (String.eqb (JSON_stringify actual) (JSON_stringify expected));
        simpl; split; lia. }
  destruct H as [Hp Hf]. split; [ exact Hp | ]. split; [ exact Hf | ]. split.
  - rewrite Hp, Hf.
    assert (Hlen : (List.length (filter (holds JSON_stringify) l) +
                    List.length (filter (fun a => negb (holds JSON_stringify a)) l) =
                    List.length l)%nat).
    { rewrite <- length_app. apply Permutation_length.
      apply filter_split_perm. reflexivity. }
    lia.
  - intros H0. unfold exit_code. rewrite Hf, H0. simpl.
    clear. induction l as [ | a l IH]; simpl; [ split; reflexivity | ].
    destruct (holds JSON_stringify a); simpl; [ exact IH | ].
    split; discriminate.
Qed.

(** ** The comparator given to sort *)

(** X15: on single ASCII letters the comparator given to [sort] is
    consistent, as [Array.prototype.sort] requires for the order of its
    result to be determined: it returns -1, 0 or 1, swapping the arguments
    changes the sign, it returns 0 for equal letters only, and it is
    transitive. *)
Theorem compare_alphabets_consistent (a b c : string) :
  test_letter a = true -> test_letter b = true -> test_letter c = true ->
  (compare_alphabets a b = -1 \/ compare_alphabets a b = 0 \/ compare_alphabets a b = 1) /\
  compare_alphabets b a = - compare_alphabets a b /\
  (compare_alphabets a b = 0 <-> a = b) /\
  (compare_alphabets a b < 0 -> compare_alphabets b c < 0 -> compare_alphabets a c < 0).
Proof.
  intros Ha Hb Hc.
  destruct (test_letter_inv a Ha) as [x [-> Hx]].
  destruct (test_letter_inv b Hb) as [y [-> Hy]].
  destruct (test_letter_inv c Hc) as [z [-> Hz]].
  rewrite (compare_alphabets_letters _ _ Hx Hy), (compare_alphabets_letters _ _ Hy Hx),
    (compare_alphabets_letters _ _ Hy Hz), (compare_alphabets_letters _ _ Hx Hz).
  assert (Hself : forall u, letter_char u = true ->
            localeCompare (String u EmptyString) (String u EmptyString) = 0).
  { intros u Hu.
    pose proof (localeCompare_swap u u (same_case_letters _ _ Hu Hu eq_refl)). lia. }
  repeat split.
  - destruct (is_upper x) eqn:Ux, (is_upper y) eqn:Uy; simpl; try tauto;
      (assert (Hs : same_case x y = true) by (apply same_case_letters; congruence);
       pose proof (localeCompare_values x y Hs) as Hv; simpl in Hv; lia).
  - destruct (is_upper x) eqn:Ux, (is_upper y) eqn:Uy; simpl; try reflexivity;
      apply localeCompare_swap; apply same_case_letters; congruence.
  - intros H. f_equal.
    destruct (is_upper x) eqn:Ux, (is_upper y) eqn:Uy; simpl in H; try discriminate H;
      (apply localeCompare_zero;
       [ apply same_case_letters; congruence | exact H ]).
  - intros H. injection H as <-.
    destruct (is_upper x); simpl; apply Hself; exact Hx.
  - destruct (is_upper x) eqn:Ux, (is_upper y) eqn:Uy, (is_upper z) eqn:Uz;
      simpl; try lia;
      (intros H1 H2;
       assert (Hxy : same_case x y = true) by (apply same_case_letters; congruence);
       assert (Hyz : same_case y z = true) by (apply same_case_letters; congruence);
       assert (Hxz : same_case x z = true) by (apply same_case_letters; congruence);
       pose proof (localeCompare_trans x y z Hxy Hyz) as Ht;
       destruct (Z.eq_dec (localeCompare (String x EmptyString) (String z EmptyString)) 0)
         as [H0 | H0];
       [ apply (localeCompare_zero x z Hxz) in H0; subst z;
         rewrite (localeCompare_swap x y Hxy) in H2; lia
       | lia ]).
Qed.

(** ** Negative numbers *)

Lemma tokens_In (items : list value) (toks : list string) (v : value) (s : string) :
  tokens items = Returns toks -> In v items -> ToString v = Returns s ->
  In (trim s) toks.
Proof.
  revert toks. induction items as [ | x items IH]; simpl; intros toks Ht Hin Hs;
    [ contradiction | ].
  destruct (ToString x) as [sx | e] eqn:Ex; simpl in Ht; [ | discriminate Ht ].
  destruct (tokens items) as [ts | e]; simpl in Ht; [ | discriminate Ht ].
  injection Ht as <-. destruct Hin as [-> | Hin].
  - rewrite Hs in Ex. injection Ex as <-. left. reflexivity.
  - right. apply (IH ts eq_refl Hin Hs).
Qed.

(** X16: a negative integer is never a number for the function.  A number
    item from -2^53 to below 0 is turned into its digits after a minus
    sign, which is not a numeric token: on success it is reported, sign
    and all, in [special_characters]. *)
Theorem negative_numbers_are_special (items : list value) (r : Result) (z : Z) :
  - max_exact <= z < 0 ->
  In (VNum (Fin z)) items ->
  processArrayData (with_data items) = Returns r ->
  Result.is_success r = true ->
  is_numeric ("-" ++ decimal (- z)) = false /\
  In ("-" ++ decimal (- z)) (Result.special_characters r).
Proof.
  intros Hz Hin Hr Hs.
  destruct (success_with_data _ _ Hr Hs) as [toks [Ht ->]].
  set (t := "-" ++ decimal (- z)).
  assert (Hstr : ToString (VNum (Fin z)) = Returns t).
  { unfold ToString. cbn [ToString_at].
    pose proof (Number_toString_exact (- z) ltac:(lia)) as Hm.
    unfold Number_toString in *.
    assert (H1 : (z <? 0) = true) by (apply Z.ltb_lt; lia).
    assert (H2 : (- z <? 0) = false) by (apply Z.ltb_ge; lia).
    rewrite H1. rewrite H2 in Hm. rewrite Hm. reflexivity. }
  assert (Hd : is_numeric (decimal (- z)) = true) by (apply decimal_numeric; lia).
  assert (Htrim : trim t = t).
  { apply no_space_trim. pose proof (numeric_no_space _ Hd) as Hns.
    unfold no_space, t in *. simpl. exact Hns. }
  assert (Hnum : is_numeric t = false) by reflexivity.
  assert (Hlet : test_letter t = false).
  { unfold t. simpl. pose proof (decimal_nonempty (- z)) as Hne.
    destruct (decimal (- z)); [ discriminate Hne | reflexivity ]. }
  split; [ exact Hnum | ].
  change (In t (filter is_special toks)). apply filter_In. split.
  - rewrite <- Htrim. apply (tokens_In items toks (VNum (Fin z)) t Ht Hin Hstr).
  - unfold is_special. unfold is_numeric in Hnum. rewrite Hnum, Hlet. reflexivity.
Qed.

(** ** The order of the items *)

Lemma sum_list_perm (l1 l2 : list Z) : Permutation l1 l2 -> sum_list l1 = sum_list l2.
Proof.
  induction 1 as [ | x l1 l2 Hp IH | x y l | l1 l2 l3 Hp1 IH1 Hp2 IH2]; simpl; lia.
Qed.

Lemma filter_perm {A : Type} (f : A -> bool) (l1 l2 : list A) :
  Permutation l1 l2 -> Permutation (filter f l1) (filter f l2).
Proof.
  induction 1 as [ | x l1 l2 Hp IH | x y l | l1 l2 l3 Hp1 IH1 Hp2 IH2]; simpl.
  - apply perm_nil.
  - destruct (f x); [ apply perm_skip | ]; exact IH.
  - destruct (f x), (f y); try apply Permutation_refl. apply perm_swap.
  - eapply perm_trans; eassumption.
Qed.

(** X17: the order of the items.  When two arrays have the same tokens in
    another order and the exact sum of the numeric tokens is at most 2^53,
    the two records have the same [sum] and the same [alphabets], and
    their [odd_numbers], [even_numbers] and [special_characters] are
    rearrangements of one another. *)
Theorem order_of_the_items (input1 input2 : value) (r1 r2 : Result)
    (toks1 toks2 : list string) :
  processArrayData input1 = Returns r1 ->
  processArrayData input2 = Returns r2 ->
  input_tokens input1 = Some toks1 ->
  input_tokens input2 = Some toks2 ->
  Permutation toks1 toks2 ->
  exact_sum toks1 <= max_exact ->
  Result.sum r1 = Result.sum r2 /\
  Result.alphabets r1 = Result.alphabets r2 /\
  Permutation (Result.odd_numbers r1) (Result.odd_numbers r2) /\
  Permutation (Result.even_numbers r1) (Result.even_numbers r2) /\
  Permutation (Result.special_characters r1) (Result.special_characters r2).
Proof.
  intros H1 H2 T1 T2 Hp Hle.
  rewrite (server_on_tokens _ _ T1) in H1. injection H1 as <-.
  rewrite (server_on_tokens _ _ T2) in H2. injection H2 as <-.
  assert (Hsum : exact_sum toks1 = exact_sum toks2).
  { rewrite !exact_sum_sum_list. apply sum_list_perm.
    apply Permutation_map, filter_perm, Hp. }
  split.
  - rewrite !assemble_sum_exact by (rewrite <- ?Hsum; exact Hle).
    rewrite Hsum. reflexivity.
  - split.
    + rewrite !assemble_alphabets.
      apply (sort_permutation compare_alphabets single_letter
               compare_total compare_trans compare_antisym).
      * apply filter_perm, Hp.
      * apply filter_test_letter_Forall.
    + split; [ rewrite !assemble_odd; apply Permutation_map; do 2 apply filter_perm; exact Hp | ].
      split; [ rewrite !assemble_even; apply Permutation_map; do 2 apply filter_perm; exact Hp | ].
      apply (filter_perm is_special), Hp.
Qed.

End Program.

(** ** The statements on the two engines *)

(** The statements above hold on every engine.  What follows runs the
    program on the reference engine, and once on the Estonian one: the
    scenarios of test.js, the inputs at which a statement of the
    specification fails as it is written, and an instance of each
    statement that has a hypothesis. *)

#[local] Existing Instance reference_engine.

Example scenario_basic :
  processArrayData
    (VObj [("data", VArr [VStr "a"; VStr "1"; VStr "23"; VStr "$"; VStr "B"])]) =
  Returns (Result.make true None "demo_user_29082025" "demo@example.com" "12345"
             ["1"; "23"] [] ["B"; "a"] ["$"] "24" "Ba" None).
Proof. vm_compute. reflexivity. Qed.

Example scenario_even :
  processArrayData
    (VObj [("data", VArr [VStr "2"; VStr "4"; VStr "z"; VStr "Z"; VStr "@"; VStr "6"])]) =
  Returns (Result.make true None "demo_user_29082025" "demo@example.com" "12345"
             [] ["2"; "4"; "6"] ["Z"; "z"] ["@"] "12" "Zz" None).
Proof. vm_compute. reflexivity. Qed.

Example scenario_sorting :
  processArrayData
    (VObj [("data", VArr [VStr "x"; VStr "5"; VStr "y"; VStr "11"; VStr "#";
                          VStr "3"; VStr "Z"; VStr "A"])]) =
  Returns (Result.make true None "demo_user_29082025" "demo@example.com" "12345"
             ["5"; "11"; "3"] [] ["A"; "Z"; "x"; "y"] ["#"] "19" "AZxy" None).
Proof. vm_compute. reflexivity. Qed.

Example scenario_mixed_items :
  processArrayData
    (VObj [("data", VArr [VNum (Fin 5); VNull; VBool true; VFrac "1.5";
                          VArr [VNum (Fin 1); VNull; VArr [VStr "x"]];
                          VArr []; VArr [VNum (Fin 4)]; VObj []; VStr "  q "])]) =
  Returns (Result.make true None "demo_user_29082025" "demo@example.com" "12345"
             ["5"] ["4"] ["q"] ["null"; "true"; "1.5"; "1,,x"; "[object Object]"]
             "9" "q" None).
Proof. vm_compute. reflexivity. Qed.

Example scenario_item_without_string :
  processArrayData
    (VObj [("data", VArr [VStr "1"; VObj [("toString", VNum (Fin 1))]])]) =
  Returns (failure (TypeError "Cannot convert object to primitive value")).
Proof. vm_compute. reflexivity. Qed.

(** C1, as stated, fails: a [data] field holding the empty string is present
    and is not an array, and the server function returns the success record
    of the empty sequence. *)
Lemma C1_empty_string_data_succeeds :
  own_property "data" [("data", VStr "")] = Some (VStr "") /\
  isArray (VStr "") = false /\
  processArrayData (VObj [("data", VStr "")]) = Returns empty_success /\
  Result.is_success empty_success = true.
Proof. repeat split. Qed.

Lemma C1_truthy_non_array_fails_witness :
  processArrayData (VObj [("data", VStr "not an array")]) = Returns not_an_array_failure.
Proof.
  apply (C1_truthy_non_array_fails [("data", VStr "not an array")] (VStr "not an array"));
    reflexivity.
Defined.

Lemma C7_empty_input_witness :
  processArrayData (VObj []) = Returns empty_success /\
  processArrayData (VObj [("data", VArr [])]) = Returns empty_success.
Proof.
  split.
  - apply (C7_empty_input []). left. reflexivity.
  - apply (C7_empty_input [("data", VArr [])]). right. reflexivity.
Defined.

Lemma C10_falsy_data_is_empty_sequence_witness :
  processArrayData (VObj [("data", VNull)]) = Returns empty_success.
Proof.
  apply (C10_falsy_data_is_empty_sequence [("data", VNull)] VNull).
  - reflexivity.
  - simpl. left. reflexivity.
Defined.

(** C2, as stated, fails: on a record whose [data] is a string the server
    function returns the failure record and the client function throws. *)
Lemma C2_results_differ_on_string_data :
  processArrayData (VObj [("data", VStr "not an array")]) = Returns not_an_array_failure /\
  processArrayClientSide (VObj [("data", VStr "not an array")]) =
    Throws (TypeError "data.forEach is not a function") /\
  ~ identical_results
      (processArrayData (VObj [("data", VStr "not an array")]))
      (processArrayClientSide (VObj [("data", VStr "not an array")])).
Proof.
  split; [ reflexivity | ]. split; [ reflexivity | ].
  intros H. exact H.
Qed.

Lemma C2_server_and_client_witness :
  identical_results
    (processArrayData (VObj [("data", VArr [VStr "a"; VStr "1"; VNum (Fin 23); VStr "$"])]))
    (processArrayClientSide (VObj [("data", VArr [VStr "a"; VStr "1"; VNum (Fin 23); VStr "$"])])).
Proof.
  destruct (C2_server_and_client
              (VObj [("data", VArr [VStr "a"; VStr "1"; VNum (Fin 23); VStr "$"])]))
    as [Hsome _].
  destruct (Hsome ["a"; "1"; "23"; "$"] eq_refl) as [r [_ [_ [_ H]]]].
  exact H.
Defined.

(** C3, as stated, fails for the client-side copy: it throws on [null] and
    on a record whose [data] is a string. *)
Lemma C3_client_throws :
  processArrayClientSide VNull =
    Throws (TypeError "Cannot read properties of null (reading 'data')") /\
  processArrayClientSide (VObj [("data", VStr "not an array")]) =
    Throws (TypeError "data.forEach is not a function").
Proof. split; reflexivity. Qed.

(** The root collation orders the letters of one case by code point. *)
Lemma reference_code_point_collation : code_point_collation.
Proof.
  intros x y H. pose proof (same_case_inv _ _ H) as [_ [_ Hc]].
  change (localeCompare (String x "") (String y ""))
    with (collate root_rank (String x "") (String y "")).
  rewrite (collate_letters _ _ _ Hc). unfold root_rank.
  rewrite !lower_char_code, Hc.
  destruct (Nat.leb_spec (nat_of_ascii x) (nat_of_ascii y));
    destruct (is_upper y);
    repeat match goal with
           | |- context [?a <? ?b] => destruct (Z.ltb_spec a b)
           end; try reflexivity; lia.
Qed.

(** C5, as stated, fails where the default locale does not order the
    letters by code point: in an Estonian locale z goes before t, and so
    it does in [alphabets], against the order of the keys. *)
Lemma C5_locale_order :
  processArrayData (JS := estonian_engine)
    (VObj [("data", VArr [VStr "t"; VStr "z"])]) =
  Returns (Result.make true None "demo_user_29082025" "demo@example.com" "12345"
             [] [] ["z"; "t"] [] "0" "zt" None) /\
  input_tokens (JS := estonian_engine)
    (VObj [("data", VArr [VStr "t"; VStr "z"])]) = Some ["t"; "z"] /\
  sort_by_key (filter test_letter ["t"; "z"]) = ["t"; "z"] /\
  ~ key_le "z" "t".
Proof.
  split; [ vm_compute; reflexivity | ]. split; [ vm_compute; reflexivity | ].
  split; [ reflexivity | ]. intros H. discriminate H.
Qed.

Lemma C5_alphabets_sorted_by_key_witness :
  exists toks,
    input_tokens (VObj [("data", VArr [VStr "x"; VStr "5"; VStr "Z"; VStr "A"])]) = Some toks /\
    Result.alphabets
      (assemble (buckets_of ["x"; "5"; "Z"; "A"]) None) =
    sort_by_key (filter test_letter toks).
Proof.
  destruct (C5_alphabets_sorted_by_key
              (VObj [("data", VArr [VStr "x"; VStr "5"; VStr "Z"; VStr "A"])])
              (assemble (buckets_of ["x"; "5"; "Z"; "A"]) None)
              reference_code_point_collation eq_refl eq_refl) as [toks [H1 [H2 _]]].
  exists toks. split; assumption.
Defined.

Lemma C9_sort_idempotent_and_permutation_invariant_witness :
  Result.alphabets (assemble (buckets_of ["b"; "1"; "A"; "a"]) None) =
  Result.alphabets (assemble (buckets_of ["a"; "A"; "$"; "b"]) None) /\
  Result.concat_string (assemble (buckets_of ["b"; "1"; "A"; "a"]) None) =
  Result.concat_string (assemble (buckets_of ["a"; "A"; "$"; "b"]) None).
Proof.
  destruct C9_sort_idempotent_and_permutation_invariant as [_ H].
  apply (H (VObj [("data", VArr [VStr "b"; VStr "1"; VStr "A"; VStr "a"])])
           (VObj [("data", VArr [VStr "a"; VStr "A"; VStr "$"; VStr "b"])])
           _ _ ["b"; "1"; "A"; "a"] ["a"; "A"; "$"; "b"]);
    try reflexivity.
  simpl.
  apply (perm_trans (l' := ["b"; "a"; "A"])).
  - apply perm_skip. apply perm_swap.
  - apply (perm_trans (l' := ["a"; "b"; "A"])).
    + apply perm_swap.
    + apply perm_skip. apply perm_swap.
Defined.

(** C4, as stated, fails in its last part: with the tokens
    ["9007199254740992"], ["1"], ["1"] the odd values add up to 2, the even
    value is 9007199254740992 and the [sum] field reads 9007199254740992. *)
Lemma C4_sum_identity_fails :
  exists r,
    processArrayData
      (VObj [("data", VArr [VStr "9007199254740992"; VStr "1"; VStr "1"])]) = Returns r /\
    Result.is_success r = true /\
    Result.odd_numbers r = ["1"; "1"] /\
    Result.even_numbers r = ["9007199254740992"] /\
    Result.sum r = "9007199254740992" /\
    ~ sum_identity r.
Proof.
  eexists. split; [ vm_compute; reflexivity | ].
  split; [ reflexivity | ]. split; [ reflexivity | ].
  split; [ reflexivity | ]. split; [ reflexivity | ].
  intros [so [se [s [Ho [He [Hs Hsum]]]]]].
  vm_compute in Ho, He, Hs.
  injection Ho as <-. injection He as <-. injection Hs as <-.
  discriminate Hsum.
Qed.

Lemma C4_partition_witness :
  exists toks,
    input_tokens (VObj [("data", VArr [VStr "a"; VStr "1"; VStr "23"; VStr "$"; VStr "4"])])
      = Some toks /\
    sum_identity (assemble (buckets_of ["a"; "1"; "23"; "$"; "4"]) None).
Proof.
  destruct (C4_partition
              (VObj [("data", VArr [VStr "a"; VStr "1"; VStr "23"; VStr "$"; VStr "4"])])
              (assemble (buckets_of ["a"; "1"; "23"; "$"; "4"]) None)
              eq_refl eq_refl)
    as [toks [Ht [_ [_ [_ [_ [_ [_ [_ [_ Hsum]]]]]]]]]].
  exists toks. split; [ exact Ht | ].
  apply Hsum. injection Ht as <-. vm_compute. discriminate.
Defined.

(** C6, as stated, fails: the only numeric token being
    ["9007199254740993"], the [sum] field reads ["9007199254740992"], which
    is not the decimal string of the exact sum. *)
Lemma C6_sum_loses_precision :
  exists r toks,
    processArrayData (VObj [("data", VArr [VStr "9007199254740993"])]) = Returns r /\
    Result.is_success r = true /\
    input_tokens (VObj [("data", VArr [VStr "9007199254740993"])]) = Some toks /\
    exact_sum toks = 9007199254740993 /\
    Result.sum r = "9007199254740992" /\
    Result.sum r <> decimal (exact_sum toks).
Proof.
  eexists. eexists. split; [ vm_compute; reflexivity | ].
  split; [ reflexivity | ]. split; [ reflexivity | ].
  split; [ reflexivity | ]. split; [ reflexivity | ].
  vm_compute. discriminate.
Qed.

Lemma C6_sum_exact_below_bound_witness :
  exists toks,
    input_tokens (VObj [("data", VArr [VStr "2"; VStr "z"; VNum (Fin 4); VStr " 6 "])])
      = Some toks /\
    Result.sum (assemble (buckets_of ["2"; "z"; "4"; "6"]) None) = decimal (exact_sum toks).
Proof.
  destruct (C6_sum_exact_below_bound
              (VObj [("data", VArr [VStr "2"; VStr "z"; VNum (Fin 4); VStr " 6 "])])
              (assemble (buckets_of ["2"; "z"; "4"; "6"]) None)
              eq_refl eq_refl)
    as [toks [Ht [Hsum _]]].
  exists toks. split; [ exact Ht | ].
  apply Hsum. injection Ht as <-. vm_compute. discriminate.
Defined.

(** C8, as stated, fails: the token ["007"] is rendered ["7"] and put in
    [odd_numbers], [even_numbers] is empty; and a parsed integer above 2^53
    is not always rendered in its decimal form: 18014398509481992 comes
    out as ["18014398509481990"], and 10^21 in exponent notation. *)
Lemma C8_007_is_odd :
  (exists r,
     processArrayData (VObj [("data", VArr [VStr "007"])]) = Returns r /\
     Result.is_success r = true /\
     Result.odd_numbers r = ["7"] /\
     Result.even_numbers r = [] /\
     ~ In "7" (Result.even_numbers r)) /\
  (exists r,
     processArrayData (VObj [("data", VArr [VStr "18014398509481992"])]) = Returns r /\
     Result.is_success r = true /\
     parseInt "18014398509481992" = Fin 18014398509481992 /\
     Result.even_numbers r = ["18014398509481990"]) /\
  (exists r,
     processArrayData (VObj [("data", VArr [VStr "1000000000000000000000"])]) = Returns r /\
     Result.is_success r = true /\
     Result.odd_numbers r = [] /\
     Result.even_numbers r = ["1e+21"]).
Proof.
  split; [ | split ].
  - eexists. split; [ vm_compute; reflexivity | ].
    split; [ reflexivity | ]. split; [ reflexivity | ]. split; [ reflexivity | ].
    intros H. exact H.
  - eexists. split; [ vm_compute; reflexivity | ].
    split; [ reflexivity | ]. split; [ vm_compute; reflexivity | reflexivity ].
  - eexists. split; [ vm_compute; reflexivity | ].
    split; [ reflexivity | ]. split; reflexivity.
Qed.

Lemma C8_canonical_rendering_witness :
  In "7" (Result.odd_numbers (assemble (buckets_of ["x"; "007"; "10"]) None)).
Proof.
  destruct (C8_canonical_rendering
              (VObj [("data", VArr [VStr "x"; VStr " 007"; VNum (Fin 10)])])
              (assemble (buckets_of ["x"; "007"; "10"]) None)
              eq_refl eq_refl)
    as [toks [Ht [_ [_ [_ H]]]]].
  injection Ht as <-.
  destruct (H ["x"] ["10"] eq_refl) as [H7 _]. exact H7.
Defined.

Lemma concat_string_round_trip_witness :
  characters "AZxy" = ["A"; "Z"; "x"; "y"].
Proof.
  destruct (concat_string_round_trip
              (with_data [VStr "x"; VStr "5"; VStr "y"; VStr "Z"; VStr "A"])
              (assemble (buckets_of ["x"; "5"; "y"; "Z"; "A"]) None)
              (or_introl eq_refl)) as [_ [H _]].
  exact H.
Defined.

Lemma output_fields_shape_witness :
  Forall (fun t => is_special t = true /\ trim t = t)
         (Result.special_characters (assemble (buckets_of ["a"; "$ $"; "12"; "-3"]) None)).
Proof.
  destruct (output_fields_shape
              (with_data [VStr "a"; VStr "  $ $ "; VNum (Fin 12); VNum (Fin (-3))])
              (assemble (buckets_of ["a"; "$ $"; "12"; "-3"]) None)
              ["a"; "$ $"; "12"; "-3"] eq_refl eq_refl) as [_ [H _]].
  exact H.
Defined.

Lemma singleton_arrays_are_transparent_witness :
  processArrayData (with_data [VArr [VStr "a"]; VNull; VArr [VArr [VNum (Fin 4)]]]) =
  processArrayData (with_data [VStr "a"; VNull; VArr [VNum (Fin 4)]]).
Proof.
  destruct (singleton_arrays_are_transparent [VStr "a"; VNull; VArr [VNum (Fin 4)]])
    as [H _]; [ | exact H ].
  repeat constructor; cbn; lia.
Defined.

(** At the limit of the stack the array around an item shows: an item
    nested as deep as the stack has room for is converted, and is not once
    it is put in one more array. *)
Example singleton_array_at_the_limit :
  Result.is_success (failure (RangeError "Maximum call stack size exceeded")) = false /\
  processArrayData (with_data [wrap_item (nested 2000 (VStr "a"))]) =
    Returns (failure (RangeError "Maximum call stack size exceeded")) /\
  exists r, processArrayData (with_data [nested 2000 (VStr "a")]) = Returns r /\
            Result.is_success r = true.
Proof.
  split; [ reflexivity | ]. split; [ vm_compute; reflexivity | ].
  eexists. split; [ vm_compute; reflexivity | reflexivity ].
Qed.

Lemma failure_causes_witness :
  processArrayData (with_data [VStr "1"; nested 2001 (VStr "a")]) =
    Returns (failure (RangeError "Maximum call stack size exceeded")) /\
  Result.error (failure (RangeError "Maximum call stack size exceeded")) =
    Some "Maximum call stack size exceeded" /\
  Exists (fun v => (2000 < array_depth v)%nat) [VStr "1"; nested 2001 (VStr "a")].
Proof.
  assert (Hrun : processArrayData (with_data [VStr "1"; nested 2001 (VStr "a")]) =
                 Returns (failure (RangeError "Maximum call stack size exceeded")))
    by (vm_compute; reflexivity).
  split; [ exact Hrun | ].
  destruct (failure_causes _ _ Hrun eq_refl)
    as [_ [[H _] | [[H _] | [[d [H1 [_ [H3 _]]]] | [[items [_ [_ H]]] | [items [H1 [_ [Hd H]]]]]]]]].
  - discriminate H.
  - discriminate H.
  - injection H1 as <-. discriminate H3.
  - discriminate H.
  - injection H1 as <-. split; [ exact H | exact Hd ].
Defined.

Lemma concatenated_arrays_witness :
  exists r,
    processArrayData (with_data ([VStr "b"; VStr "3"] ++ [VStr "A"; VStr "4"; VStr "5"]))
      = Returns r /\
    Result.odd_numbers r = ["3"; "5"] /\
    Result.alphabets r = ["A"; "b"].
Proof.
  destruct (concatenated_arrays [VStr "b"; VStr "3"] [VStr "A"; VStr "4"; VStr "5"]
              (assemble (buckets_of ["b"; "3"]) None)
              (assemble (buckets_of ["A"; "4"; "5"]) None)
              eq_refl eq_refl eq_refl eq_refl)
    as [r [Hr [_ [Ho [_ [_ [Ha _]]]]]]].
  exists r. split; [ exact Hr | ]. split; [ exact Ho | exact Ha ].
Defined.

Lemma reprocessing_the_output_witness :
  processArrayData
    (with_data (output_items (assemble (buckets_of ["b"; "007"; "$"; "A"; "10"]) None))) =
  Returns (assemble (buckets_of ["b"; "007"; "$"; "A"; "10"]) None).
Proof.
  apply (reprocessing_the_output
           (with_data [VStr " b"; VStr "007"; VStr "$"; VStr "A"; VNum (Fin 10)])
           _ ["b"; "007"; "$"; "A"; "10"]).
  - reflexivity.
  - reflexivity.
  - vm_compute. discriminate.
Defined.


Lemma fallback_matches_server_witness :
  exists inputData items r,
    Some (with_data [VStr "a"; VStr "1"]) = Some inputData /\
    get_data inputData = Returns (VArr items) /\
    (None : option value) = None /\
    processArrayData inputData = Returns r /\
    Result.is_success r = true /\
    assemble (buckets_of ["a"; "1"]) (Some "client_side_fallback") =
      with_processed r (Some "client_side_fallback").
Proof.
  apply (fallback_matches_server
           (fun _ => Some (with_data [VStr "a"; VStr "1"]))
           (fun _ => (None : option value))
           "{ }").
  reflexivity.
Defined.


Lemma page_stricter_than_server_witness :
  handleProcessArray (fun _ => Some (VObj [("data", VNull)]))
                     (fun _ => Some (VBool true)) "{ }" = ErrorShown msg_data_not_array /\
  processArrayData (VObj [("data", VNull)]) = Returns empty_success.
Proof.
  destruct (page_stricter_than_server
              (fun _ => Some (VObj [("data", VNull)])) (fun _ => Some (VBool true))
              "{ }" [("data", VNull)] eq_refl eq_refl eq_refl) as [_ H].
  apply (H VNull); [ reflexivity | simpl; left; reflexivity ].
Defined.

Lemma summary_of_a_result_witness :
  shown_sum (displayResult_summary (assemble (buckets_of ["a"; "1"; "23"; "$"]) None)) = "24".
Proof.
  destruct (summary_of_a_result
              (with_data [VStr "a"; VStr "1"; VStr "23"; VStr ""; VStr "$"])
              (assemble (buckets_of ["a"; "1"; "23"; ""; "$"]) None)
              (or_introl eq_refl)) as [H _].
  exact H.
Defined.

Lemma assertion_counters_witness :
  exit_code
    (run_assertions (fun _ => "x") [AssertTrue true; AssertEqual VNull VNull]
                    (mkCounters 0 0)) = 0.
Proof.
  destruct (assertion_counters (fun _ => "x")
              [AssertTrue true; AssertEqual VNull VNull] (mkCounters 0 0))
    as [_ [_ [_ H]]].
  apply (H eq_refl). reflexivity.
Defined.

Lemma compare_alphabets_consistent_witness :
  compare_alphabets "a" "B" = - compare_alphabets "B" "a".
Proof.
  destruct (compare_alphabets_consistent "B" "a" "z" eq_refl eq_refl eq_refl)
    as [_ [H _]].
  exact H.
Defined.

Lemma negative_numbers_are_special_witness :
  In "-5" (Result.special_characters (assemble (buckets_of ["3"; "-5"]) None)).
Proof.
  apply (negative_numbers_are_special [VNum (Fin 3); VNum (Fin (-5))] _ (-5)).
  - split; [ vm_compute; discriminate | reflexivity ].
  - right. left. reflexivity.
  - reflexivity.
  - reflexivity.
Defined.

Lemma order_of_the_items_witness :
  Result.sum (assemble (buckets_of ["2"; "a"; "7"]) None) =
  Result.sum (assemble (buckets_of ["a"; "7"; "2"]) None).
Proof.
  apply (order_of_the_items
           (with_data [VStr "2"; VStr "a"; VStr "7"])
           (with_data [VStr "a"; VStr "7"; VStr "2"])
           _ _ ["2"; "a"; "7"] ["a"; "7"; "2"]); try reflexivity.
  - apply (perm_trans (l' := ["a"; "2"; "7"])).
    + apply perm_swap.
    + apply perm_skip. apply perm_swap.
  - vm_compute. discriminate.
Defined.

(** Above the bound the order of the items shows in [sum]: the accumulator
    rounds after each addition. *)
Example sum_depends_on_order :
  exists r1 r2,
    processArrayData
      (with_data [VStr "9007199254740992"; VStr "1"; VStr "1"]) = Returns r1 /\
    processArrayData
      (with_data [VStr "1"; VStr "1"; VStr "9007199254740992"]) = Returns r2 /\
    Result.sum r1 = "9007199254740992" /\
    Result.sum r2 = "9007199254740994".
Proof.
  eexists. eexists. split; [ vm_compute; reflexivity | ].
  split; [ vm_compute; reflexivity | ]. split; reflexivity.
Qed.

